(** * The Living Treaty: segmentation, word analysis and term generation

    A shallow embedding of the Mi'kmaw language helpers of the repository:
    - [lnu_bridge.py]: the morpheme table and the suffix-peeling splitter
      [analyze_morphemes];
    - [translator.py]: the lexicon lookup, [LnuTranslator.analyze_word],
      [LnuTranslator.analyze_sentence] and
      [LnuTranslator.generate_modern_term].

    Python strings are sequences of Unicode code points; they are modelled
    as lists of code points, and the handful of [str] methods the code calls
    are written out in [PyStr].  Dictionaries keep insertion order and are
    modelled as association lists in [PyDict]. *)

From Stdlib Require Import String Ascii.
From Stdlib Require Import List NArith Bool Arith Lia.
From Stdlib Require Import Permutation Sorted.
Import ListNotations.

(* ================================================================== *)
(** ** Python strings *)
(* ================================================================== *)

Module PyStr.

Definition char := N.
Definition str := list char.

(** String literals of the source files are UTF-8 text; [py] decodes the
    bytes of a literal into its code points, so that ["–"] is the single
    code point U+2013 as in Python. *)
Fixpoint utf8_decode (bs : list N) : str :=
  match bs with
  | [] => []
  | b :: r =>
      if (b <? 128)%N then b :: utf8_decode r
      else if (b <? 224)%N then
        match r with
        | c1 :: r1 => ((b - 192) * 64 + (c1 - 128))%N :: utf8_decode r1
        | [] => [b]
        end
      else if (b <? 240)%N then
        match r with
        | c1 :: c2 :: r2 =>
            ((b - 224) * 4096 + (c1 - 128) * 64 + (c2 - 128))%N
              :: utf8_decode r2
        | _ => b :: r
        end
      else
        match r with
        | c1 :: c2 :: c3 :: r3 =>
            ((b - 240) * 262144 + (c1 - 128) * 4096
             + (c2 - 128) * 64 + (c3 - 128))%N :: utf8_decode r3
        | _ => b :: r
        end
  end.

Definition py (s : string) : str :=
  utf8_decode (map N_of_ascii (list_ascii_of_string s)).

(** [a == b] *)
Fixpoint str_eqb (a b : str) : bool :=
  match a, b with
  | [], [] => true
  | x :: a', y :: b' => (x =? y)%N && str_eqb a' b'
  | _, _ => false
  end.

(** [s.startswith(prefix)] *)
Fixpoint startswith (s prefix : str) {struct prefix} : bool :=
  match prefix, s with
  | [], _ => true
  | p :: prefix', c :: s' => (c =? p)%N && startswith s' prefix'
  | _ :: _, [] => false
  end.

(** [s.endswith(suffix)] *)
Definition endswith (s suffix : str) : bool :=
  (length suffix <=? length s)
  && str_eqb (skipn (length s - length suffix) s) suffix.

(** [needle in hay] for strings: substring test. *)
Fixpoint contains (needle hay : str) : bool :=
  startswith hay needle
  || match hay with
     | [] => false
     | _ :: hay' => contains needle hay'
     end.

(** [s[:-n]] for [n = len(...)]: Python reads [-0] as [0], so [s[:-0]] is
    the empty string; for [n > 0] the last [n] characters are dropped. *)
Definition slice_drop_last (s : str) (n : nat) : str :=
  match n with
  | 0 => []
  | S _ => firstn (length s - n) s
  end.

(** [str.isspace] on one code point (the whitespace set of CPython 3). *)
Definition isspace (c : char) : bool :=
  ((9 <=? c) && (c <=? 13)
   || (28 <=? c) && (c <=? 32)
   || (c =? 133) || (c =? 160) || (c =? 5760)
   || (8192 <=? c) && (c <=? 8202)
   || (c =? 8232) || (c =? 8233) || (c =? 8239) || (c =? 8287)
   || (c =? 12288))%N.

Fixpoint lstrip (s : str) : str :=
  match s with
  | [] => []
  | c :: s' => if isspace c then lstrip s' else s
  end.

Definition rstrip (s : str) : str := rev (lstrip (rev s)).

(** [s.strip()] *)
Definition strip (s : str) : str := rstrip (lstrip s).

(** [s.split()] without separator: maximal runs of non-whitespace.
    [cur] holds the characters of the token being read, last one first. *)
Fixpoint split_ws_from (cur : str) (s : str) : list str :=
  match s with
  | [] => match cur with [] => [] | _ => [rev cur] end
  | c :: s' =>
      if isspace c then
        match cur with
        | [] => split_ws_from [] s'
        | _ => rev cur :: split_ws_from [] s'
        end
      else split_ws_from (c :: cur) s'
  end.

Definition split_ws (s : str) : list str := split_ws_from [] s.

(** [s.split(sep)] for a one-character separator: every occurrence cuts,
    empty pieces are kept. *)
Fixpoint split_on_from (sep : char) (cur : str) (s : str) : list str :=
  match s with
  | [] => [rev cur]
  | c :: s' =>
      if (c =? sep)%N then rev cur :: split_on_from sep [] s'
      else split_on_from sep (c :: cur) s'
  end.

Definition split_on (sep : char) (s : str) : list str :=
  split_on_from sep [] s.

(** [s.replace(old, new)] where [old] and [new] are one character each. *)
Definition replace_char (old new : char) (s : str) : str :=
  map (fun c => if (c =? old)%N then new else c) s.

(** [sep.join(parts)] *)
Fixpoint join (sep : str) (parts : list str) : str :=
  match parts with
  | [] => []
  | [p] => p
  | p :: rest => p ++ sep ++ join sep rest
  end.

(** Strings made of whitespace only (the empty string among them). *)
Definition blank (s : str) : bool := forallb isspace s.

(** Truth value of a string: non-empty. *)
Definition truthy (s : str) : bool :=
  match s with [] => false | _ :: _ => true end.

(** Case mapping on the ASCII range. *)
Definition ascii_lower_char (c : char) : char :=
  if ((65 <=? c) && (c <=? 90))%N then (c + 32)%N else c.

Definition ascii_upper_char (c : char) : char :=
  if ((97 <=? c) && (c <=? 122))%N then (c - 32)%N else c.

Definition ascii_lower (s : str) : str := map ascii_lower_char s.

(** [s.capitalize()]; the code calls it on an ASCII constant only. *)
Definition capitalize (s : str) : str :=
  match s with
  | [] => []
  | c :: s' => ascii_upper_char c :: ascii_lower s'
  end.

(** [str.lower] follows the Unicode case tables, which are not reproduced
    here.  The functions that call it take it from this class, with the one
    law they rely on: lowering keeps the empty string empty and no other
    string becomes empty.  The properties below hold for every instance,
    and [ascii_case] is the instance that agrees with Python on ASCII
    text. *)
Class CaseFold := {
  lower : str -> str;
  lower_empty : forall s, lower s = [] <-> s = []
}.

Lemma ascii_lower_empty (s : str) : ascii_lower s = [] <-> s = [].
Proof.
  destruct s; simpl; split; (reflexivity || discriminate).
Qed.

#[export] Instance ascii_case : CaseFold :=
  {| lower := ascii_lower; lower_empty := ascii_lower_empty |}.

End PyStr.

(* ================================================================== *)
(** ** Python dictionaries with string keys *)
(* ================================================================== *)

Module PyDict.
Import PyStr.

(** Entries in insertion order. *)
Definition dict (V : Type) := list (str * V).

(** [d.get(k)] *)
Fixpoint dict_get {V : Type} (d : dict V) (k : str) : option V :=
  match d with
  | [] => None
  | (k', v) :: d' => if str_eqb k' k then Some v else dict_get d' k
  end.

(** [d[k] = v]: an existing key keeps its place and takes the new value,
    a new key goes last. *)
Fixpoint dict_set {V : Type} (d : dict V) (k : str) (v : V) : dict V :=
  match d with
  | [] => [(k, v)]
  | (k', v') :: d' =>
      if str_eqb k' k then (k', v) :: d' else (k', v') :: dict_set d' k v
  end.

End PyDict.

(* ================================================================== *)
(** ** Python list helpers *)
(* ================================================================== *)

Module PyList.

(** [sorted(l, key=key, reverse=True)].  Python's sort is stable, also
    with [reverse=True]: elements with equal keys keep their order.  A
    stable sort has one possible result, computed here by insertion. *)
Fixpoint insert_reverse {A : Type} (key : A -> nat) (x : A) (l : list A)
  : list A :=
  match l with
  | [] => [x]
  | y :: l' =>
      if key x <? key y then y :: insert_reverse key x l' else x :: l
  end.

Definition sorted_reverse {A : Type} (key : A -> nat) (l : list A)
  : list A :=
  fold_right (insert_reverse key) [] l.

End PyList.

(* ================================================================== *)
(** ** lnu_bridge.py *)
(* ================================================================== *)

Module LnuBridge.
Import PyStr PyDict PyList.

(** [@dataclass class Morpheme] *)
Record Morpheme : Type := mkMorpheme {
  form : str;    (* written form (SFO) *)
  gloss : str;   (* short meaning *)
  type : str;    (* "root", "prefix", "suffix", "infix" *)
  notes : str    (* extra info, empty by default *)
}.

(** The synthetic morpheme of an unknown leftover root:
    [Morpheme(remaining, "UNKNOWN-ROOT", "root", "not yet in database")]. *)
Definition unknown_root (remaining : str) : Morpheme :=
  mkMorpheme remaining (py "UNKNOWN-ROOT") (py "root")
    (py "not yet in database").

(** [m.type == "suffix"] *)
Definition is_suffix (m : Morpheme) : bool := str_eqb (type m) (py "suffix").

Section Segmenter.

(** The morpheme table the splitter reads (the global [MORPHEMES]). *)
Variable table : list Morpheme.

(** [{m.form: m for m in MORPHEMES}] *)
Definition index_of : dict Morpheme :=
  fold_left (fun d m => dict_set d (form m) m) table [].

(** [sorted([m for m in MORPHEMES if m.type == "suffix"],
            key=lambda m: len(m.form), reverse=True)] *)
Definition suffixes_of : list Morpheme :=
  sorted_reverse (fun m => length (form m)) (filter is_suffix table).

(** The test of the inner loop:
    [remaining.endswith(suf.form) and remaining != suf.form]. *)
Definition peelable (remaining : str) (suf : Morpheme) : bool :=
  endswith remaining (form suf) && negb (str_eqb remaining (form suf)).

(** One run of [for suf in suffixes: if ...: ...; break]: the first
    candidate that passes the test, if any. *)
Definition scan (remaining : str) : option Morpheme :=
  find (peelable remaining) suffixes_of.

(** [while changed: ...] on the pair [(found, remaining)].  Every round
    that strips a suffix shortens [remaining], so [fuel] rounds with
    [fuel] above the length of the word are never used up
    (see [peel_loop_settles]). *)
Fixpoint peel_loop (fuel : nat) (found : list Morpheme) (remaining : str)
  : list Morpheme * str :=
  match fuel with
  | 0 => (found, remaining)
  | S fuel' =>
      match scan remaining with
      | Some suf =>
          peel_loop fuel' (suf :: found)
            (slice_drop_last remaining (length (form suf)))
      | None => (found, remaining)
      end
  end.

(** The last step: [if remaining in MORPHEME_INDEX: ... else: if
    remaining: ...]. *)
Definition attach_root (found : list Morpheme) (remaining : str)
  : list Morpheme :=
  match dict_get index_of remaining with
  | Some m => m :: found
  | None =>
      if truthy remaining then unknown_root remaining :: found else found
  end.

Definition segment (sfo_word : str) : list Morpheme :=
  let '(found, remaining) := peel_loop (S (length sfo_word)) [] sfo_word in
  attach_root found remaining.

End Segmenter.

(** Seed morphemes. *)
Definition MORPHEMES : list Morpheme :=
  [ mkMorpheme (py "tekek") (py "cold (it is cold)") (py "root")
      (py "SFO; often pronounced with 'g' quality");
    mkMorpheme (py "wikuom") (py "house, dwelling, storage place")
      (py "root") [];
    mkMorpheme (py "aqan") (py "motion of arm/elbow, waving") (py "suffix")
      (py "used in weenieraqn joke");
    mkMorpheme (py "ketlami") (py "care, concern, love-like care")
      (py "root") [];
    mkMorpheme (py "welo't") (py "good, well, in good state") (py "root")
      [];
    mkMorpheme (py "epsi") (py "I am warm / passionate") (py "root")
      (py "Pacifique/Prosper");
    mkMorpheme (py "ul") (py "to make, to cause") (py "suffix")
      (py "device/action builder");
    mkMorpheme (py "qan")
      (py "device / instrument / 'thing that does it'") (py "suffix")
      [];
    mkMorpheme (py "si") (py "I am (stative in some forms)") (py "suffix")
      [];
    mkMorpheme (py "tasi") (py "in state/condition of") (py "suffix")
      [] ].

Definition MORPHEME_INDEX : dict Morpheme := index_of MORPHEMES.

(** [analyze_morphemes] (the second definition of the file, which is the
    one in force). *)
Definition analyze_morphemes (sfo_word : str) : list Morpheme :=
  segment MORPHEMES sfo_word.

(** The word spelled by a morpheme list. *)
Definition spelled (ms : list Morpheme) : str := concat (map form ms).

(** *** The lexicon of lnu_bridge.py *)

(** [@dataclass class LexiconEntry]; [semantic_fields] and [morphemes]
    default to [None]. *)
Record LexiconEntry : Type := mkLexiconEntry {
  sfo : str;
  pacifique : option str;
  pos : str;
  english_gloss : str;
  animacy : option str;
  semantic_fields : option (list str);
  morphemes : option (list Morpheme);
  worldview_notes : str
}.

(** [LexiconEntry.to_dict]: [asdict] copies the fields into a dictionary,
    and the morphemes are copied once more when there are any.  The
    dictionary has the fields of the dataclass and is written as a record
    of the same type. *)
Definition to_dict (self : LexiconEntry) : LexiconEntry :=
  {| sfo := sfo self;
     pacifique := pacifique self;
     pos := pos self;
     english_gloss := english_gloss self;
     animacy := animacy self;
     semantic_fields := semantic_fields self;
     morphemes :=
       match morphemes self with
       | Some ms => Some (map (fun m => m) ms)
       | None => None
       end;
     worldview_notes := worldview_notes self |}.

(** The value under the key ["entry"] of the dictionary [explain_word]
    returns: the dictionary of a lexicon entry, or the four fields of an
    automatic analysis. *)
Record AnalysisEntry : Type := mkAnalysisEntry {
  a_sfo : str;
  a_english_gloss : str;
  a_morphemes : list Morpheme;
  a_worldview_notes : str
}.

Inductive ExplainedEntry : Type :=
| FromLexicon (d : LexiconEntry)
| FromAnalysis (a : AnalysisEntry).

Record Explanation : Type := mkExplanation {
  source : str;
  entry : ExplainedEntry
}.

(** [MORPHEME_INDEX[key]], as the seed lexicon uses it: with keys the
    index holds (a key that is missing would stop the module from
    loading). *)
Definition MORPHEME_INDEX_at (key : str) : Morpheme :=
  match dict_get MORPHEME_INDEX key with
  | Some m => m
  | None => mkMorpheme key [] [] []
  end.

(** The global [LEXICON] is written by [add_entry] and read by
    [lookup_word]; both take its current value here. *)
Definition add_entry (LEXICON : dict LexiconEntry) (entry : LexiconEntry)
  : dict LexiconEntry :=
  dict_set LEXICON (sfo entry) entry.

Section WithLexicon.

Variable LEXICON : dict LexiconEntry.

(** [LEXICON.get(sfo_word)] *)
Definition lookup_word_in (sfo_word : str) : option LexiconEntry :=
  dict_get LEXICON sfo_word.

Definition explain_word_in (sfo_word : str) : Explanation :=
  match lookup_word_in sfo_word with
  | Some e =>
      (* a [LexiconEntry] object is always true *)
      {| source := py "lexicon"; entry := FromLexicon (to_dict e) |}
  | None =>
      let morphemes := analyze_morphemes sfo_word in
      {| source := py "analysis";
         entry :=
           FromAnalysis
             {| a_sfo := sfo_word;
                a_english_gloss :=
                  py "UNKNOWN (check with elder / dictionary)";
                a_morphemes := map (fun m => m) morphemes;
                a_worldview_notes :=
                  py "Automatically analyzed. This is a guess. Must be verified by fluent speakers or reference works."
             |} |}
  end.

End WithLexicon.

(** The five entries added when the module loads. *)
Definition SEED_ENTRIES : list LexiconEntry :=
  [ {| sfo := py "tekek";
       pacifique := None;
       pos := py "ADJ-VII";
       english_gloss := py "it is cold";
       animacy := Some (py "inanimate");
       semantic_fields := Some [py "weather"; py "sensation"];
       morphemes := Some [MORPHEME_INDEX_at (py "tekek")];
       worldview_notes :=
         py "Describes environmental condition; ties into survival, readiness, and TEK about seasons."
    |};
    {| sfo := py "Tekekulqan";
       pacifique := None;
       pos := py "N-INAN";
       english_gloss :=
         py "refrigerator; the thing that makes things cold";
       animacy := Some (py "inanimate");
       semantic_fields := Some [py "modern"; py "household"; py "humour"];
       morphemes :=
         Some [ MORPHEME_INDEX_at (py "tekek");
                MORPHEME_INDEX_at (py "ul");
                MORPHEME_INDEX_at (py "qan") ];
       worldview_notes :=
         py "Modern coinage: tekek (cold) + ul (cause/make) + qan (device). Should be checked/approved by fluent speakers/community."
    |};
    {| sfo := py "Kelu'si";
       pacifique := None;
       pos := py "VAI-1S";
       english_gloss := py "I am beautiful";
       animacy := Some (py "animate");
       semantic_fields := Some [py "identity"; py "humour"];
       morphemes :=
         Some [ mkMorpheme (py "kelu'") (py "beautiful, good, nice-looking")
                  (py "root") [];
                mkMorpheme (py "si") (py "I am (stative)") (py "suffix")
                  [] ];
       worldview_notes :=
         py "Used seriously and jokingly; fits rez humour and teasing about looks and confidence."
    |};
    {| sfo := py "epsi";
       pacifique := Some (py "êpsi");
       pos := py "VAI-1S";
       english_gloss := py "I am warm; I am passionate";
       animacy := Some (py "animate");
       semantic_fields := Some [py "emotion"; py "temperature"; py "spirit"];
       morphemes := Some [MORPHEME_INDEX_at (py "epsi")];
       worldview_notes :=
         py "Physical and emotional warmth; passion, fire inside. Prosper/Pacifique style."
    |};
    {| sfo := py "welo'tasi";
       pacifique := None;
       pos := py "VII";
       english_gloss :=
         py "it is well taken care of; in a good state";
       animacy := Some (py "inanimate");
       semantic_fields := Some [py "care"; py "netukulimk"];
       morphemes :=
         Some [ MORPHEME_INDEX_at (py "welo't");
                MORPHEME_INDEX_at (py "tasi") ];
       worldview_notes :=
         py "Implies ongoing good relationship, not just a one-time fix. Fits Netukulimk."
    |} ].

(** [LEXICON] once the module is loaded: [add_entry] on each seed entry
    in turn, from the empty dictionary. *)
Definition LEXICON : dict LexiconEntry := fold_left add_entry SEED_ENTRIES [].

Definition lookup_word (sfo_word : str) : option LexiconEntry :=
  lookup_word_in LEXICON sfo_word.

Definition explain_word (sfo_word : str) : Explanation :=
  explain_word_in LEXICON sfo_word.

(** [build_humorous_compound(english_stub, mikmaq_motion_suffix)] and the
    call that leaves the suffix at its default, ["aqan"]. *)
Definition build_humorous_compound (english_stub mikmaq_motion_suffix : str)
  : str :=
  english_stub ++ mikmaq_motion_suffix.

Definition build_humorous_compound_default (english_stub : str) : str :=
  build_humorous_compound english_stub (py "aqan").

End LnuBridge.


(* ================================================================== *)
(** ** translator.py *)
(* ================================================================== *)

Module Translator.
Import PyStr PyDict.

(** *** Data models *)

Record Morpheme : Type := mkMorpheme {
  surface : str;          (* written form *)
  gloss : str;            (* short English gloss *)
  role : str;             (* "root", "preverb", "suffix", "final", ... *)
  notes : option str      (* default None *)
}.

(** [Morpheme(surface, gloss, role)] with [notes] left at its default. *)
Definition Morpheme3 (surface gloss role : str) : Morpheme :=
  mkMorpheme surface gloss role None.

Record WordEntry : Type := mkWordEntry {
  headword : str;
  english : str;
  part_of_speech : str;
  animacy : option str;
  morphemes : list Morpheme;
  register : option str;
  worldview_tags : option (list str);
  examples : option (list str)
}.

Record AnalysisResult : Type := mkAnalysisResult {
  word : str;
  entry : option WordEntry;
  guessed_morphemes : list Morpheme;
  animacy_guess : option str;
  worldview_notes : list str
}.

(** The dictionary built by [AnalysisResult.to_dict]; [asdict] copies a
    dataclass field by field, so entries and morphemes keep their shape. *)
Record AnalysisDict : Type := mkAnalysisDict {
  d_word : str;
  d_has_entry : bool;
  d_entry : option WordEntry;
  d_guessed_morphemes : list Morpheme;
  d_animacy_guess : option str;
  d_worldview_notes : list str
}.

Definition to_dict (r : AnalysisResult) : AnalysisDict :=
  {| d_word := word r;
     d_has_entry := match entry r with Some _ => true | None => false end;
     d_entry := entry r;
     d_guessed_morphemes := guessed_morphemes r;
     d_animacy_guess := animacy_guess r;
     d_worldview_notes := worldview_notes r |}.

Record GenerationRequest : Type := mkGenerationRequest {
  concept : str;
  purpose : str;
  domain_tags : list str
}.

(** The candidate's [word] field is [cand_word] here, [word] being taken
    by [AnalysisResult]. *)
Record GenerationCandidate : Type := mkGenerationCandidate {
  cand_word : str;
  breakdown : list Morpheme;
  explanation : str;
  caution : str
}.

(** The dictionary returned by [analyze_sentence]. *)
Record SentenceAnalysis : Type := mkSentenceAnalysis {
  sentence : str;
  tokens : list str;
  analyses : list AnalysisDict
}.

(** *** Minimal example lexicon *)

(** The local helper [W] of [_init_lexicon]; the three keyword arguments
    are optional: [kw.get("worldview_tags", [])], [kw.get("register")],
    [kw.get("examples", [])]. *)
Definition W (headword english part_of_speech : str) (animacy : option str)
    (morphemes : list Morpheme)
    (kw_worldview_tags : option (list str)) (kw_register : option str)
    (kw_examples : option (list str)) : WordEntry :=
  {| headword := headword;
     english := english;
     part_of_speech := part_of_speech;
     animacy := animacy;
     morphemes := morphemes;
     register := kw_register;
     worldview_tags :=
       Some (match kw_worldview_tags with Some t => t | None => [] end);
     examples := Some (match kw_examples with Some e => e | None => [] end)
  |}.

Definition entry_kesalul : WordEntry :=
  W (py "kesalul") (py "I love you") (py "VTA-1sg>2") (Some (py "animate"))
    [ Morpheme3 (py "ke-") (py "1st person acting (I)") (py "prefix");
      Morpheme3 (py "sal") (py "love / precious") (py "root");
      Morpheme3 (py "-ul") (py "1→2 object (you)") (py "final") ]
    (Some [py "kinship"; py "emotion"]) None
    (Some [py "Kesalul nikmaq. – I love you, my relations."]).

Definition entry_kesa'lul : WordEntry :=
  W (py "kesa'lul") (py "I hurt you") (py "VTA-1sg>2") (Some (py "animate"))
    [ Morpheme3 (py "ke-") (py "1st person acting (I)") (py "prefix");
      Morpheme3 (py "sa'") (py "hurt / pain") (py "root");
      Morpheme3 (py "-ul") (py "1→2 object (you)") (py "final") ]
    (Some [py "emotion"; py "harm"]) None None.

Definition entry_ke'sa'lul : WordEntry :=
  W (py "ke'sa'lul")
    (py "I place you into the fire (as offering/prayer)")
    (py "VTA-1sg>2") (Some (py "animate"))
    [ Morpheme3 (py "ke'-") (py "into / into the fire") (py "preverb");
      Morpheme3 (py "sa'") (py "put / place") (py "root");
      Morpheme3 (py "-lul") (py "1→2 object") (py "final") ]
    (Some [py "ceremony"; py "offering"; py "fire"]) None None.

Definition entry_tekek : WordEntry :=
  W (py "tekek") (py "it is cold") (py "VII") (Some (py "inanimate"))
    [ Morpheme3 (py "tekek") (py "cold (inanimate state)") (py "root") ]
    (Some [py "weather"; py "state"]) None None.

Definition entry_nme'jik : WordEntry :=
  W (py "nme'jik") (py "fishes") (py "NA-pl") (Some (py "animate"))
    [ Morpheme3 (py "nme'") (py "fish") (py "root");
      Morpheme3 (py "-jik") (py "animate plural") (py "suffix") ]
    (Some [py "animals"; py "water"]) None None.

Definition entry_msit_no'kmaq : WordEntry :=
  W (py "msit no'kmaq") (py "all my relations") (py "expression") None
    [ Morpheme3 (py "msit") (py "all") (py "quantifier");
      Morpheme3 (py "no'kmaq") (py "my relations / all my kin") (py "noun") ]
    (Some [py "msit_nokmaq"; py "philosophy"; py "relation"])
    (Some (py "ceremonial")) None.

(** [LEXICON_CORE] after [_init_lexicon()]: six assignments
    [LEXICON_CORE[key] = W(...)] on the empty dictionary. *)
Definition LEXICON_CORE : dict WordEntry :=
  fold_left (fun d kv => dict_set d (fst kv) (snd kv))
    [ (py "kesalul", entry_kesalul);
      (py "kesa'lul", entry_kesa'lul);
      (py "ke'sa'lul", entry_ke'sa'lul);
      (py "tekek", entry_tekek);
      (py "nme'jik", entry_nme'jik);
      (py "msit no'kmaq", entry_msit_no'kmaq) ]
    [].

(** *** Morphological and worldview rules *)

Definition ANIMACY_HINTS : dict str :=
  [ (py "nme'", py "animate");
    (py "kataq", py "animate");
    (py "waisik", py "animate");
    (py "weskaq", py "inanimate") ].

Definition WORLDVIEW_HINTS : dict str :=
  [ (py "msit", py "Msit No'kmaq – all is related.");
    (py "no'kmaq", py "Relational kinship, not just biological family.");
    (py "nipugt", py "In the woods / territory context.");
    (py "samqwan", py "Water context – river, lake, ocean.");
    (py "e's", py "Process / becoming; states often verbs, not nouns.") ].

Section WithCaseFold.
Context {CF : CaseFold}.

Definition guess_animacy (word : str) : option str :=
  let word_lower := lower word in
  match find (fun fa => contains (fst fa) word_lower) ANIMACY_HINTS with
  | Some fa => Some (snd fa)
  | None =>
      if endswith word_lower (py "jik") then Some (py "animate")
      else if endswith word_lower (py "l") || endswith word_lower (py "k")
      then None
      else None
  end.

Definition collect_worldview_notes (word : str) : list str :=
  let lowered := lower word in
  map snd (filter (fun fn => contains (fst fn) lowered) WORLDVIEW_HINTS).

End WithCaseFold.

(** *** Core translator class *)

Record LnuTranslator : Type := mkLnuTranslator {
  lexicon : dict WordEntry
}.

(** [__init__]: [self.lexicon = lexicon or LEXICON_CORE]; [None] and the
    empty dictionary are both false. *)
Definition init (lexicon : option (dict WordEntry)) : LnuTranslator :=
  {| lexicon :=
       match lexicon with
       | Some (kv :: d) => kv :: d
       | Some [] | None => LEXICON_CORE
       end |}.

(** The messages [analyze_word] attaches. *)
Definition JIK_NOTE : str :=
  py "-jik often marks animate plural (people, animals, living beings).".
Definition APOSTROPHE_NOTE : str :=
  py "Apostrophes often mark long vowels or morpheme boundaries.".
Definition NO_ENTRY_NOTE : str :=
  py "No lexicon entry yet. This is a good candidate to confirm with fluent speakers.".

(** [Morpheme(word, "unknown – add to lexicon with elders", "unknown")] *)
Definition unknown_morpheme (word : str) : Morpheme :=
  Morpheme3 word (py "unknown – add to lexicon with elders") (py "unknown").

(** The one-character strings the code splits and replaces on. *)
Definition APOSTROPHE : char := 39%N.
Definition COMMA : char := 44%N.
Definition SPACE : char := 32%N.

Section Methods.
Context {CF : CaseFold}.
Variable self : LnuTranslator.

Definition lookup (word : str) : option WordEntry :=
  let key := strip word in
  match dict_get (lexicon self) key with
  | Some e => Some e
  | None =>
      match
        find (fun he => str_eqb (lower (fst he)) (lower key))
          (lexicon self)
      with
      | Some he => Some (snd he)
      | None => None
      end
  end.

(** The pattern heuristics of the miss branch: the morphemes guessed and
    the notes after the [if word.endswith("jik") ... elif "'" in word]
    statement. *)
Definition pattern_guess (word : str) (notes : list str)
  : list Morpheme * list str :=
  if endswith word (py "jik") then
    let stem := slice_drop_last word 3 in
    ( [ Morpheme3 stem (py "possible animate root") (py "root");
        Morpheme3 (py "-jik") (py "animate plural") (py "suffix") ],
      notes ++ [JIK_NOTE] )
  else if contains [APOSTROPHE] word then
    let parts := split_on APOSTROPHE word in
    ( map (fun p => Morpheme3 p (py "possible morpheme") (py "unknown"))
        (filter truthy parts),
      notes ++ [APOSTROPHE_NOTE] )
  else ([], notes).

Definition analyze_word (word : str) : AnalysisResult :=
  match lookup word with
  | Some entry =>
      (* a [WordEntry] object is always true *)
      let notes := collect_worldview_notes (headword entry) in
      let notes :=
        match worldview_tags entry with
        | Some (t :: ts) =>
            notes ++ [py "Worldview tags: " ++ join (py ", ") (t :: ts)]
        | Some [] | None => notes
        end in
      {| word := word;
         entry := Some entry;
         guessed_morphemes := [];
         animacy_guess := animacy entry;
         worldview_notes := notes |}
  | None =>
      let anim_guess := guess_animacy word in
      let notes := collect_worldview_notes word in
      let '(guessed, notes) := pattern_guess word notes in
      let '(guessed, notes) :=
        match guessed with
        | [] => ([unknown_morpheme word], notes ++ [NO_ENTRY_NOTE])
        | _ :: _ => (guessed, notes)
        end in
      let notes :=
        match anim_guess with
        | Some a =>
            if truthy a
            then notes ++ [py "Animacy guess: " ++ a ++ py "."]
            else notes
        | None => notes
        end in
      {| word := word;
         entry := None;
         guessed_morphemes := guessed;
         animacy_guess := anim_guess;
         worldview_notes := notes |}
  end.

(** [[t for t in sentence.replace(",", " ").split() if t]] *)
Definition tokenize (sentence : str) : list str :=
  filter truthy (split_ws (replace_char COMMA SPACE sentence)).

Definition analyze_sentence (sentence : str) : SentenceAnalysis :=
  let tokens := tokenize sentence in
  let analyses := map (fun tok => to_dict (analyze_word tok)) tokens in
  {| sentence := sentence; tokens := tokens; analyses := analyses |}.

(** The candidate of the refrigerator pattern. *)
Definition refrigerator_candidate : GenerationCandidate :=
  {| cand_word := py "Mesentaqtekekim";
     breakdown :=
       [ Morpheme3 (py "mesen-") (py "to keep / maintain") (py "preverb");
         Morpheme3 (py "taq-") (py "inside / container / dwelling")
           (py "root-ish");
         Morpheme3 (py "tekek") (py "cold (inanimate state)") (py "root");
         Morpheme3 (py "-im") (py "instrument / thing that does this")
           (py "suffix") ];
     explanation :=
       py "Built from mesen- (to keep/maintain) + taq (inside) + tekek (cold) "
       ++ py "+ -im (instrument). Rough sense: 'the thing that keeps the inside cold'.";
     caution :=
       py "Prototype only. Confirm phonology, stress and cultural fit with fluent "
       ++ py "Mi'kmaw speakers and elders before adopting. Adjust spelling to local dialect."
  |}.

(** The candidate of the generic fallback pattern. *)
Definition generic_candidate : GenerationCandidate :=
  let base_root := py "apoqnmatultim" in
  {| cand_word := capitalize base_root ++ py "ik";
     breakdown :=
       [ Morpheme3 base_root (py "to help / support (placeholder root)")
           (py "root");
         Morpheme3 (py "-ik") (py "thing which does this") (py "suffix") ];
     explanation :=
       py "Generic helper pattern: root meaning 'to help/support' + -ik (instrument). "
       ++ py "Use this only as a brainstorming starting point.";
     caution :=
       py "Generic pattern. Replace the root with a better verb that reflects the purpose "
       ++ py "once you consult speakers (e.g., a more specific verb for how the object acts)."
  |}.

(** The test of pattern 1. *)
Definition refrigerator_pattern (req : GenerationRequest) : bool :=
  contains (py "refrigerator") (lower (concept req))
  || (contains (py "cold") (lower (purpose req))
      && contains (py "food") (lower (purpose req))).

Definition generate_modern_term (req : GenerationRequest)
  : list GenerationCandidate :=
  let candidates := [] in
  let candidates :=
    if refrigerator_pattern req
    then candidates ++ [refrigerator_candidate]
    else candidates in
  candidates ++ [generic_candidate].

End Methods.

(** The lexicon store holds [word]: some key equals the trimmed word up
    to case (an exact match is one such). *)
Definition in_store {CF : CaseFold} (self : LnuTranslator) (word : str)
  : bool :=
  existsb (fun he => str_eqb (lower (fst he)) (lower (strip word)))
    (lexicon self).

(** The tokenizer in the words of the specification: every whitespace
    character and every comma separates, and empty tokens are dropped. *)
Definition is_separator (c : char) : bool := isspace c || (c =? COMMA)%N.

Fixpoint cut_at_separators (cur : str) (s : str) : list str :=
  match s with
  | [] => [rev cur]
  | c :: s' =>
      if is_separator c then rev cur :: cut_at_separators [] s'
      else cut_at_separators (c :: cur) s'
  end.

Definition tokenize_spec (sentence : str) : list str :=
  filter truthy (cut_at_separators [] sentence).

(** *** API-friendly wrappers *)

(** [GenerationCandidate.to_dict]: the four fields, copied. *)
Definition candidate_to_dict (self : GenerationCandidate)
  : GenerationCandidate :=
  {| cand_word := cand_word self;
     breakdown := map (fun m => m) (breakdown self);
     explanation := explanation self;
     caution := caution self |}.

(** The payload of [generate_term_for_api], read with [payload.get]: each
    key may be missing; ["domain_tags"] may also hold [None]. *)
Record Payload : Type := mkPayload {
  p_concept : option str;
  p_purpose : option str;
  p_domain_tags : option (list str)
}.

(** The dictionary [generate_term_for_api] returns. *)
Record TermResponse : Type := mkTermResponse {
  r_concept : str;
  r_candidates : list GenerationCandidate
}.

Section ApiWrappers.
Context {CF : CaseFold}.
Variable self : LnuTranslator.

Definition explain_word_for_api (word : str) : AnalysisDict :=
  to_dict (analyze_word self word).

Definition explain_sentence_for_api (sentence : str) : SentenceAnalysis :=
  analyze_sentence self sentence.

Definition generate_term_for_api (payload : Payload) : TermResponse :=
  let req :=
    {| concept := match p_concept payload with Some c => c | None => [] end;
       purpose := match p_purpose payload with Some c => c | None => [] end;
       domain_tags :=
         match p_domain_tags payload with
         | Some (t :: ts) => t :: ts
         | Some [] | None => []
         end |} in
  let cands := generate_modern_term req in
  {| r_concept := concept req;
     r_candidates := map candidate_to_dict cands |}.

End ApiWrappers.

End Translator.

(* ================================================================== *)
(** ** my-lnui-translator/translator.py *)
(* ================================================================== *)

Module HomeTranslator.
Import PyStr PyDict.

(** The classes come from [lnu_home_context], which is not among the
    files; they are taken with the fields this file reads, as plain
    objects (an object is true, [None] is false). *)
Record Dialect : Type := mkDialect {
  sf_orthography : option str;
  listuguj_orthography : option str;
  context : str;
  two_eyed_seeing : str;
  sources : list str
}.

Record MiKmawWord : Type := mkMiKmawWord {
  english : str;
  dialects : dict Dialect
}.

(** [self.home], through its one field read here. *)
Record HomeContext : Type := mkHomeContext {
  mi_kmaw_words : dict MiKmawWord
}.

(** The dictionary [translate] returns. *)
Record Translation : Type := mkTranslation {
  t_english : str;
  t_sf_orthography : option str;
  t_listuguj_orthography : option str;
  t_context : str;
  t_two_eyed_seeing : str;
  t_sources : list str
}.

(** A call returns a value or raises [KeyError] on a missing key. *)
Inductive outcome (A : Type) : Type :=
| Return (a : A)
| KeyError (key : str).
Arguments Return {A} a.
Arguments KeyError {A} key.

(** [x or ""] for an optional string. *)
Definition or_empty (x : option str) : str :=
  match x with
  | Some (c :: s) => c :: s
  | Some [] | None => []
  end.

Section Methods.
Context {CF : CaseFold}.
Variable home : HomeContext.

(** The test of the loop of [_find_by_mikmaw] on one word. *)
Definition matches_mikmaw (f : str) (w : MiKmawWord) : bool :=
  match dict_get (dialects w) (py "general") with
  | None => false
  | Some d =>
      str_eqb (lower (or_empty (sf_orthography d))) f
      || str_eqb (lower (or_empty (listuguj_orthography d))) f
  end.

Definition _find_by_mikmaw (form : str) : option MiKmawWord :=
  let f := lower (strip form) in
  find (matches_mikmaw f) (map snd (mi_kmaw_words home)).

Definition _find_by_english (gloss : str) : option MiKmawWord :=
  let g := lower (strip gloss) in
  find (fun w => str_eqb (lower (english w)) g
                 || contains g (lower (english w)))
    (map snd (mi_kmaw_words home)).

Definition translate (q : str) (input_type : str)
  : outcome (option Translation) :=
  if negb (truthy (strip q)) then Return None
  else
    let w :=
      if str_eqb input_type (py "mikmaw") then _find_by_mikmaw q
      else if str_eqb input_type (py "english") then _find_by_english q
      else
        match _find_by_mikmaw q with
        | Some w => Some w
        | None => _find_by_english q
        end in
    match w with
    | None => Return None
    | Some w =>
        match dict_get (dialects w) (py "general") with
        | None => KeyError (py "general")
        | Some d =>
            Return
              (Some {| t_english := english w;
                       t_sf_orthography := sf_orthography d;
                       t_listuguj_orthography := listuguj_orthography d;
                       t_context := context d;
                       t_two_eyed_seeing := two_eyed_seeing d;
                       t_sources := sources d |})
        end
    end.

End Methods.

(** A context of two words for the examples below (the real one is built
    by [lnu_home_context.build_home_context]): "winter" with a general
    dialect, and "snow" with a dialect of another name only. *)
Definition example_home : HomeContext :=
  {| mi_kmaw_words :=
       [ (py "kesik",
          {| english := py "Winter";
             dialects :=
               [ (py "general",
                  {| sf_orthography := Some (py "Kesik");
                     listuguj_orthography := None;
                     context := py "season";
                     two_eyed_seeing := py "cold time";
                     sources := [py "elders"] |}) ] |});
         (py "wastew",
          {| english := py "Snow";
             dialects :=
               [ (py "listuguj",
                  {| sf_orthography := Some (py "Wastew");
                     listuguj_orthography := Some (py "Wastew");
                     context := py "weather";
                     two_eyed_seeing := py "white cover";
                     sources := [] |}) ] |}) ] |}.

End HomeTranslator.

(* ================================================================== *)
(** ** Facts on strings, dictionaries and sorting *)
(* ================================================================== *)

Module PyStrFacts.
Import PyStr.

Lemma str_eqb_eq (a b : str) : str_eqb a b = true <-> a = b.
Proof.
  revert b; induction a as [|x a IH]; intros [|y b]; simpl;
    try (split; [discriminate | discriminate]); [tauto|].
  rewrite andb_true_iff, N.eqb_eq, IH.
  split; [intros [-> ->]; reflexivity | intros E; inversion E; auto].
Qed.

Lemma str_eqb_refl (a : str) : str_eqb a a = true.
Proof. apply str_eqb_eq; reflexivity. Qed.

Lemma str_eqb_neq (a b : str) : str_eqb a b = false <-> a <> b.
Proof.
  rewrite <- str_eqb_eq. destruct (str_eqb a b); split; congruence.
Qed.

(** A string ends with [suffix] exactly when it is some string followed
    by [suffix]. *)
Lemma endswith_iff (s suffix : str) :
  endswith s suffix = true <-> exists p, s = p ++ suffix.
Proof.
  unfold endswith. rewrite andb_true_iff, Nat.leb_le, str_eqb_eq. split.
  - intros [_ E]. exists (firstn (length s - length suffix) s).
    pose proof (firstn_skipn (length s - length suffix) s) as F.
    rewrite E in F. symmetry; exact F.
  - intros [p ->]. rewrite length_app. split; [lia|].
    replace (length p + length suffix - length suffix) with (length p + 0)
      by lia.
    rewrite skipn_app, Nat.add_0_r, skipn_all, Nat.sub_diag. reflexivity.
Qed.

(** Dropping a non-empty ending and putting it back. *)
Lemma slice_drop_last_app (s suffix : str) :
  endswith s suffix = true -> suffix <> [] ->
  slice_drop_last s (length suffix) ++ suffix = s.
Proof.
  intros E Hne. apply endswith_iff in E as [p ->].
  unfold slice_drop_last. destruct (length suffix) eqn:L.
  - destruct suffix; [congruence | discriminate].
  - rewrite <- L, length_app.
    replace (length p + length suffix - length suffix) with (length p)
      by lia.
    rewrite firstn_app, Nat.sub_diag, firstn_all. simpl.
    rewrite app_nil_r. reflexivity.
Qed.

Lemma slice_drop_last_length (s : str) (n : nat) :
  length (slice_drop_last s n) = match n with 0 => 0 | _ => length s - n end.
Proof.
  destruct n; simpl; [reflexivity|]. rewrite length_firstn. lia.
Qed.

Lemma lstrip_blank (s : str) : blank s = true -> lstrip s = [].
Proof.
  induction s as [|c s IH]; simpl; [reflexivity|].
  rewrite andb_true_iff. intros [-> H]. auto.
Qed.

Lemma strip_blank (s : str) : blank s = true -> strip s = [].
Proof.
  intros H. unfold strip, rstrip. rewrite (lstrip_blank s H). reflexivity.
Qed.

Lemma blank_In (s : str) (c : char) :
  blank s = true -> In c s -> isspace c = true.
Proof.
  unfold blank. rewrite forallb_forall. auto.
Qed.

Lemma blank_not_endswith (s t : str) (c : char) :
  blank s = true -> In c t -> isspace c = false -> endswith s t = false.
Proof.
  intros Hb Hin Hc. destruct (endswith s t) eqn:E; [|reflexivity].
  apply endswith_iff in E as [p ->].
  rewrite (blank_In _ c Hb) in Hc; [discriminate|].
  apply in_or_app; right; exact Hin.
Qed.

Lemma contains_char_In (c : char) (s : str) :
  contains [c] s = true -> In c s.
Proof.
  induction s as [|x s IH]; simpl; [discriminate|].
  rewrite andb_true_r, orb_true_iff, N.eqb_eq. intuition.
Qed.

Lemma blank_not_contains (s : str) (c : char) :
  blank s = true -> isspace c = false -> contains [c] s = false.
Proof.
  intros Hb Hc. destruct (contains [c] s) eqn:E; [|reflexivity].
  apply contains_char_In in E. rewrite (blank_In _ _ Hb E) in Hc.
  discriminate.
Qed.

Lemma truthy_rev_cons (c : char) (cur : str) : truthy (rev (c :: cur)) = true.
Proof.
  simpl. destruct (rev cur); reflexivity.
Qed.

End PyStrFacts.

Module PyDictFacts.
Import PyStr PyDict PyStrFacts.

Lemma dict_get_set {V : Type} (d : dict V) (k k' : str) (v : V) :
  dict_get (dict_set d k v) k' =
  if str_eqb k k' then Some v else dict_get d k'.
Proof.
  induction d as [|[k0 v0] d IH]; simpl.
  - destruct (str_eqb k k'); reflexivity.
  - destruct (str_eqb k0 k) eqn:E0; simpl.
    + apply str_eqb_eq in E0; subst k0.
      destruct (str_eqb k k'); reflexivity.
    + destruct (str_eqb k0 k') eqn:E1; [|exact IH].
      apply str_eqb_eq in E1; subst k0.
      destruct (str_eqb k k') eqn:E2; [|reflexivity].
      apply str_eqb_eq in E2; subst k'.
      rewrite str_eqb_refl in E0; discriminate.
Qed.

Lemma dict_get_In {V : Type} (d : dict V) (k : str) (v : V) :
  dict_get d k = Some v -> In (k, v) d.
Proof.
  induction d as [|[k0 v0] d IH]; simpl; [discriminate|].
  destruct (str_eqb k0 k) eqn:E.
  - apply str_eqb_eq in E; subst. intros [= ->]. left; reflexivity.
  - intros H; right; auto.
Qed.

End PyDictFacts.

Module PyListFacts.
Import PyList.

Section Sorting.
Context {A : Type} (key : A -> nat).

Lemma insert_reverse_perm (x : A) (l : list A) :
  Permutation (insert_reverse key x l) (x :: l).
Proof.
  induction l as [|y l IH]; simpl; [reflexivity|].
  destruct (key x <? key y); [|reflexivity].
  rewrite IH. apply perm_swap.
Qed.

(** The sorted list has the elements of the input, each as often. *)
Lemma sorted_reverse_perm (l : list A) :
  Permutation (sorted_reverse key l) l.
Proof.
  induction l as [|x l IH]; simpl; [reflexivity|].
  rewrite insert_reverse_perm, IH. reflexivity.
Qed.

Lemma insert_reverse_sorted (x : A) (l : list A) :
  StronglySorted (fun a b => key b <= key a) l ->
  StronglySorted (fun a b => key b <= key a) (insert_reverse key x l).
Proof.
  induction 1 as [|y l Hs IH Hy]; simpl.
  - constructor; constructor.
  - destruct (key x <? key y) eqn:E.
    + apply Nat.ltb_lt in E. constructor; [exact IH|].
      rewrite (insert_reverse_perm x l). constructor; [lia | exact Hy].
    + apply Nat.ltb_ge in E. constructor.
      * constructor; assumption.
      * constructor; [exact E|].
        rewrite Forall_forall in Hy |- *. intros z Hz.
        specialize (Hy z Hz). simpl in Hy. lia.
Qed.

(** Keys never increase along the sorted list. *)
Lemma sorted_reverse_sorted (l : list A) :
  StronglySorted (fun a b => key b <= key a) (sorted_reverse key l).
Proof.
  induction l as [|x l IH]; simpl.
  - constructor.
  - apply insert_reverse_sorted; exact IH.
Qed.

Lemma insert_reverse_stable (n : nat) (x : A) (l : list A) :
  filter (fun a => key a =? n) (insert_reverse key x l)
  = filter (fun a => key a =? n) (x :: l).
Proof.
  induction l as [|y l IH]; [reflexivity|].
  simpl insert_reverse. destruct (key x <? key y) eqn:E; [|reflexivity].
  apply Nat.ltb_lt in E. simpl in *.
  destruct (key y =? n) eqn:Ey.
  - apply Nat.eqb_eq in Ey.
    assert ((key x =? n) = false) as Ex by (apply Nat.eqb_neq; lia).
    rewrite Ex in *. rewrite IH. reflexivity.
  - exact IH.
Qed.

(** Stability: the elements of any one key keep their input order. *)
Lemma sorted_reverse_stable (n : nat) (l : list A) :
  filter (fun a => key a =? n) (sorted_reverse key l)
  = filter (fun a => key a =? n) l.
Proof.
  induction l as [|x l IH]; [reflexivity|].
  simpl sorted_reverse. rewrite insert_reverse_stable.
  simpl. rewrite IH. reflexivity.
Qed.

(** The first hit of a search in a sorted list has the largest key of
    all hits. *)
Lemma find_sorted_max (P : A -> bool) (l : list A) (x : A) :
  StronglySorted (fun a b => key b <= key a) l ->
  find P l = Some x ->
  forall y, In y l -> P y = true -> key y <= key x.
Proof.
  induction 1 as [|z l Hs IH Hz]; simpl; [discriminate|].
  destruct (P z) eqn:Pz.
  - intros [= ->] y [<- | Hy] _; [lia|].
    rewrite Forall_forall in Hz. exact (Hz y Hy).
  - intros Hf y [<- | Hy] Py; [congruence|]. exact (IH Hf y Hy Py).
Qed.

End Sorting.

Lemma find_filter {A : Type} (P Q : A -> bool) (l : list A) :
  find P (filter Q l) = find (fun a => Q a && P a) l.
Proof.
  induction l as [|x l IH]; simpl; [reflexivity|].
  destruct (Q x); simpl; [destruct (P x); auto | exact IH].
Qed.

Lemma find_refine {A : Type} (P Q : A -> bool) (l : list A) (x : A) :
  find P l = Some x -> Q x = true -> find (fun a => Q a && P a) l = Some x.
Proof.
  induction l as [|y l IH]; simpl; [discriminate|].
  destruct (P y) eqn:Py.
  - intros [= ->] Qx. rewrite Qx. reflexivity.
  - intros Hf Qx. rewrite andb_false_r. auto.
Qed.

End PyListFacts.

(* ================================================================== *)
(** ** The splitter of lnu_bridge.py *)
(* ================================================================== *)

Module LnuBridgeFacts.
Import PyStr PyDict PyList LnuBridge PyStrFacts PyDictFacts PyListFacts.

Section AnyTable.
Variable table : list Morpheme.

(** *** The candidate list *)

Lemma suffixes_of_perm :
  Permutation (suffixes_of table) (filter is_suffix table).
Proof. apply sorted_reverse_perm. Qed.

Lemma suffixes_of_In (m : Morpheme) :
  In m (suffixes_of table) <-> In m table /\ type m = py "suffix".
Proof.
  split.
  - intros H. apply (Permutation_in _ suffixes_of_perm) in H.
    apply filter_In in H as [H1 H2]. split; [exact H1|].
    apply str_eqb_eq; exact H2.
  - intros [H1 H2].
    apply (Permutation_in _ (Permutation_sym suffixes_of_perm)).
    apply filter_In. split; [exact H1|]. apply str_eqb_eq; exact H2.
Qed.

Lemma suffixes_of_sorted :
  StronglySorted (fun a b => length (form b) <= length (form a))
    (suffixes_of table).
Proof.
  apply (sorted_reverse_sorted (fun m => length (form m))).
Qed.

Lemma suffixes_of_stable (n : nat) :
  filter (fun m => length (form m) =? n) (suffixes_of table)
  = filter (fun m => length (form m) =? n) (filter is_suffix table).
Proof.
  apply (sorted_reverse_stable (fun m => length (form m))).
Qed.

(** *** One scan *)

Lemma scan_Some (remaining : str) (suf : Morpheme) :
  scan table remaining = Some suf ->
  In suf (suffixes_of table) /\ peelable remaining suf = true.
Proof. apply find_some. Qed.

Lemma peelable_iff (remaining : str) (suf : Morpheme) :
  peelable remaining suf = true <->
  endswith remaining (form suf) = true /\ remaining <> form suf.
Proof.
  unfold peelable.
  rewrite andb_true_iff, negb_true_iff, str_eqb_neq. tauto.
Qed.

(** A suffix that is stripped is strictly shorter than the residual it
    is stripped from. *)
Lemma peelable_proper (remaining : str) (suf : Morpheme) :
  peelable remaining suf = true ->
  length (form suf) < length remaining.
Proof.
  intros H. apply peelable_iff in H as [E Hne].
  apply endswith_iff in E as [p ->].
  rewrite length_app. destruct p; simpl in *; [congruence | lia].
Qed.

(** Stripping shortens the residual, whatever the suffix. *)
Lemma peelable_shrinks (remaining : str) (suf : Morpheme) :
  peelable remaining suf = true ->
  length (slice_drop_last remaining (length (form suf)))
  < length remaining.
Proof.
  intros H. pose proof (peelable_proper _ _ H) as L.
  rewrite slice_drop_last_length. destruct (length (form suf)); lia.
Qed.

(** The stripped suffix is a longest one among the candidates that
    could be stripped. *)
Lemma scan_longest (remaining : str) (suf : Morpheme) :
  scan table remaining = Some suf ->
  forall s', In s' (suffixes_of table) -> peelable remaining s' = true ->
  length (form s') <= length (form suf).
Proof.
  intros H.
  exact (find_sorted_max (fun m => length (form m)) _ _ _
           suffixes_of_sorted H).
Qed.

(** Among the candidates of its own length it is the first of the
    table. *)
Lemma scan_first_of_table (remaining : str) (suf : Morpheme) :
  scan table remaining = Some suf ->
  find (fun m => (length (form m) =? length (form suf))
                 && peelable remaining m)
    (filter is_suffix table) = Some suf.
Proof.
  intros H. rewrite <- find_filter, <- suffixes_of_stable, find_filter.
  apply find_refine; [exact H | apply Nat.eqb_refl].
Qed.

(** *** The loop *)

(** The loop ends because a scan finds nothing, not because the fuel
    runs out. *)
Lemma peel_loop_settles (fuel : nat) (found : list Morpheme)
    (remaining : str) :
  length remaining < fuel ->
  scan table (snd (peel_loop table fuel found remaining)) = None.
Proof.
  revert found remaining.
  induction fuel as [|fuel IH]; intros found remaining L; [lia|].
  simpl. destruct (scan table remaining) as [suf|] eqn:E.
  - apply IH. apply scan_Some in E as [_ E].
    apply peelable_shrinks in E. lia.
  - simpl. exact E.
Qed.

(** More fuel changes nothing. *)
Lemma peel_loop_fuel (f1 f2 : nat) (found : list Morpheme)
    (remaining : str) :
  length remaining < f1 -> length remaining < f2 ->
  peel_loop table f1 found remaining = peel_loop table f2 found remaining.
Proof.
  revert f2 found remaining.
  induction f1 as [|f1 IH]; intros [|f2] found remaining L1 L2; try lia.
  simpl. destruct (scan table remaining) as [suf|] eqn:E; [|reflexivity].
  apply scan_Some in E as [_ E]. apply peelable_shrinks in E.
  apply IH; lia.
Qed.

(** Every suffix found is shorter than the word the loop started from. *)
Lemma peel_loop_shorter (fuel n : nat) (found : list Morpheme)
    (remaining : str) :
  length remaining <= n ->
  Forall (fun m => length (form m) < n) found ->
  Forall (fun m => length (form m) < n)
    (fst (peel_loop table fuel found remaining)).
Proof.
  revert found remaining.
  induction fuel as [|fuel IH]; intros found remaining L F; simpl;
    [exact F|].
  destruct (scan table remaining) as [suf|] eqn:E; [|exact F].
  apply scan_Some in E as [_ E].
  pose proof (peelable_proper _ _ E) as P.
  pose proof (peelable_shrinks _ _ E) as Q.
  apply IH; [lia|]. constructor; [lia | exact F].
Qed.

(** *** The index *)

Lemma index_of_form (k : str) (m : Morpheme) :
  dict_get (index_of table) k = Some m -> form m = k /\ In m table.
Proof.
  unfold index_of.
  assert (forall (l : list Morpheme) (d : dict Morpheme),
             (forall k m, dict_get d k = Some m ->
                          form m = k /\ In m table) ->
             (forall m, In m l -> In m table) ->
             forall k m,
               dict_get (fold_left (fun d m => dict_set d (form m) m) l d)
                 k = Some m -> form m = k /\ In m table) as G.
  { induction l as [|x l IH]; intros d Hd Hl k' m'; simpl; [apply Hd|].
    apply IH.
    - intros k0 m0. rewrite dict_get_set.
      destruct (str_eqb (form x) k0) eqn:E; [|apply Hd].
      intros [= <-]. apply str_eqb_eq in E. split; [exact E|].
      apply Hl; left; reflexivity.
    - intros m0 H0. apply Hl; right; exact H0. }
  apply (G table []); [discriminate | auto].
Qed.

Lemma index_of_mem (m : Morpheme) :
  In m table -> exists m', dict_get (index_of table) (form m) = Some m'.
Proof.
  unfold index_of.
  assert (forall (l : list Morpheme) (d : dict Morpheme) k,
             (exists m', dict_get d k = Some m')
             \/ (exists m, In m l /\ form m = k) ->
             exists m',
               dict_get (fold_left (fun d m => dict_set d (form m) m) l d)
                 k = Some m') as G.
  { induction l as [|x l IH]; intros d k; simpl.
    - intros [H | (m0 & [] & _)]; exact H.
    - intros H. apply IH.
      destruct (str_eqb (form x) k) eqn:E.
      + left. rewrite dict_get_set, E. eauto.
      + destruct H as [H | (m0 & [<- | Hin] & Hk)].
        * left. rewrite dict_get_set, E. exact H.
        * apply str_eqb_neq in E. congruence.
        * right; eauto. }
  intros Hin. apply G. right; eauto.
Qed.

End AnyTable.

Section ProperSuffixes.
Variable table : list Morpheme.

(** No suffix of the table has an empty written form. *)
Hypothesis forms_nonempty :
  Forall (fun m => form m <> []) (suffixes_of table).

Lemma scan_strip (remaining : str) (suf : Morpheme) :
  scan table remaining = Some suf ->
  slice_drop_last remaining (length (form suf)) ++ form suf = remaining
  /\ slice_drop_last remaining (length (form suf)) <> [].
Proof.
  intros E. apply scan_Some in E as [Hin E].
  rewrite Forall_forall in forms_nonempty.
  pose proof (forms_nonempty suf Hin) as Hne.
  pose proof (peelable_proper _ _ E) as L.
  apply peelable_iff in E as [E _]. split.
  - apply slice_drop_last_app; assumption.
  - intros C. apply (f_equal (@length char)) in C.
    rewrite slice_drop_last_length in C.
    destruct (form suf); [congruence | simpl in *; lia].
Qed.

(** The residual followed by the suffixes found spells the same word
    before and after the loop. *)
Lemma peel_loop_spelled (fuel : nat) (found : list Morpheme)
    (remaining : str) :
  snd (peel_loop table fuel found remaining)
    ++ spelled (fst (peel_loop table fuel found remaining))
  = remaining ++ spelled found.
Proof.
  revert found remaining.
  induction fuel as [|fuel IH]; intros found remaining; simpl;
    [reflexivity|].
  destruct (scan table remaining) as [suf|] eqn:E; [|reflexivity].
  rewrite IH. apply scan_strip in E as [E _].
  unfold spelled; simpl. rewrite app_assoc, E. reflexivity.
Qed.

(** The loop never uses up a non-empty word. *)
Lemma peel_loop_residual (fuel : nat) (found : list Morpheme)
    (remaining : str) :
  remaining <> [] -> snd (peel_loop table fuel found remaining) <> [].
Proof.
  revert found remaining.
  induction fuel as [|fuel IH]; intros found remaining Hne; simpl;
    [exact Hne|].
  destruct (scan table remaining) as [suf|] eqn:E; [|exact Hne].
  apply IH. apply scan_strip in E; tauto.
Qed.

End ProperSuffixes.

Section RootStep.
Variable table : list Morpheme.

Lemma attach_root_spelled (found : list Morpheme) (remaining : str) :
  spelled (attach_root table found remaining) = remaining ++ spelled found.
Proof.
  unfold attach_root.
  destruct (dict_get (index_of table) remaining) as [m|] eqn:E.
  - apply index_of_form in E as [E _]. unfold spelled; simpl.
    rewrite E. reflexivity.
  - destruct remaining; reflexivity.
Qed.

(** What stands in the root position when the residual is not empty. *)
Lemma attach_root_nonempty (found : list Morpheme) (remaining : str) :
  remaining <> [] ->
  exists root,
    attach_root table found remaining = root :: found
    /\ form root = remaining
    /\ (dict_get (index_of table) remaining = Some root /\ In root table
        \/ dict_get (index_of table) remaining = None
           /\ root = unknown_root remaining).
Proof.
  intros Hne. unfold attach_root.
  destruct (dict_get (index_of table) remaining) as [m|] eqn:E.
  - exists m. pose proof (index_of_form _ _ _ E) as [F I]. auto.
  - destruct remaining as [|c r]; [congruence|].
    exists (unknown_root (c :: r)). auto.
Qed.

Lemma segment_unfold (sfo_word : str) :
  segment table sfo_word =
  attach_root table
    (fst (peel_loop table (S (length sfo_word)) [] sfo_word))
    (snd (peel_loop table (S (length sfo_word)) [] sfo_word)).
Proof.
  unfold segment.
  destruct (peel_loop table (S (length sfo_word)) [] sfo_word).
  reflexivity.
Qed.

(** With no empty suffix form in the table, the morphemes returned
    spell the word. *)
Lemma segment_spelled (sfo_word : str) :
  Forall (fun m => form m <> []) (suffixes_of table) ->
  spelled (segment table sfo_word) = sfo_word.
Proof.
  intros H. rewrite segment_unfold, attach_root_spelled.
  rewrite (peel_loop_spelled table H). apply app_nil_r.
Qed.

(** A word no candidate can be stripped from is left whole. *)
Lemma segment_no_peel (sfo_word : str) :
  scan table sfo_word = None ->
  peel_loop table (S (length sfo_word)) [] sfo_word = ([], sfo_word).
Proof. intros H. simpl. rewrite H. reflexivity. Qed.

End RootStep.

(** *** The seed table *)

Lemma MORPHEMES_forms_nonempty :
  Forall (fun m => form m <> []) (suffixes_of MORPHEMES).
Proof.
  vm_compute. repeat constructor; discriminate.
Qed.

Lemma find_all_false {A : Type} (P : A -> bool) (l : list A) :
  (forall x, In x l -> P x = false) -> find P l = None.
Proof.
  induction l as [|x l IH]; simpl; intros H; [reflexivity|].
  rewrite (H x (or_introl eq_refl)). apply IH. intros y Hy; apply H; auto.
Qed.

(** *** Candidate order and longest match *)

(** C2. For any morpheme table the candidate list holds exactly the
    entries of type "suffix", in order of non-increasing length of the
    written form, entries of equal length in table order (the sort is
    stable).  A scan finds a suffix whenever some candidate matches, and
    finds none only when no candidate matches; the one it finds is the
    first candidate that matches, which is a longest matching one and,
    among the matching ones of its length, the first of the table.  A
    round of the loop strips exactly the suffix the scan finds, puts it in
    front of the suffixes found before, and ends the loop when the scan
    finds none.  With the seed table, where "si" and "tasi" are both
    suffixes, "welo'tasi" is split into the root "welo'" and the suffix
    "tasi", not into "welo'ta" and "si"; the same holds for the table that
    has only "welo't", "si" and "tasi"; and "tekekulqan" is split into
    "tekek", "ul" and "qan". *)
Theorem suffixes_sorted_longest_match_first :
  (forall table : list Morpheme,
      Permutation (suffixes_of table) (filter is_suffix table)
      /\ StronglySorted (fun a b => length (form b) <= length (form a))
           (suffixes_of table)
      /\ (forall n,
             filter (fun m => length (form m) =? n) (suffixes_of table)
             = filter (fun m => length (form m) =? n)
                 (filter is_suffix table))
      /\ (forall remaining suf,
             scan table remaining = Some suf ->
             In suf (suffixes_of table)
             /\ peelable remaining suf = true
             /\ (forall s', In s' (suffixes_of table) ->
                            peelable remaining s' = true ->
                            length (form s') <= length (form suf))
             /\ find (fun m => (length (form m) =? length (form suf))
                               && peelable remaining m)
                  (filter is_suffix table) = Some suf)
      /\ (forall remaining s',
             In s' (suffixes_of table) ->
             peelable remaining s' = true ->
             exists suf, scan table remaining = Some suf)
      /\ (forall remaining,
             scan table remaining = None <->
             (forall s', In s' (suffixes_of table) ->
                         peelable remaining s' = false))
      /\ (forall fuel found remaining suf,
             scan table remaining = Some suf ->
             peel_loop table (S fuel) found remaining
             = peel_loop table fuel (suf :: found)
                 (slice_drop_last remaining (length (form suf)))
             /\ (form suf <> [] ->
                 slice_drop_last remaining (length (form suf)) ++ form suf
                 = remaining))
      /\ (forall fuel found remaining,
             scan table remaining = None ->
             peel_loop table (S fuel) found remaining = (found, remaining)))
  /\ map form (suffixes_of MORPHEMES)
     = [py "aqan"; py "tasi"; py "qan"; py "ul"; py "si"]
  /\ analyze_morphemes (py "welo'tasi")
     = [ unknown_root (py "welo'");
         mkMorpheme (py "tasi") (py "in state/condition of") (py "suffix")
           [] ]
  /\ segment
       [ mkMorpheme (py "welo't") (py "good, well, in good state")
           (py "root") [];
         mkMorpheme (py "si") (py "I am (stative in some forms)")
           (py "suffix") [];
         mkMorpheme (py "tasi") (py "in state/condition of") (py "suffix")
           [] ]
       (py "welo'tasi")
     = [ unknown_root (py "welo'");
         mkMorpheme (py "tasi") (py "in state/condition of") (py "suffix")
           [] ]
  /\ analyze_morphemes (py "tekekulqan")
     = [ mkMorpheme (py "tekek") (py "cold (it is cold)") (py "root")
           (py "SFO; often pronounced with 'g' quality");
         mkMorpheme (py "ul") (py "to make, to cause") (py "suffix")
           (py "device/action builder");
         mkMorpheme (py "qan")
           (py "device / instrument / 'thing that does it'") (py "suffix")
           [] ].
Proof.
  split; [|repeat split; vm_compute; reflexivity].
  intros table.
  split; [apply suffixes_of_perm|].
  split; [apply suffixes_of_sorted|].
  split; [apply suffixes_of_stable|].
  split.
  { intros remaining suf H.
    destruct (scan_Some table _ _ H) as [H1 H2].
    repeat split; try assumption.
    - apply scan_longest; exact H.
    - apply scan_first_of_table; exact H. }
  split.
  { intros remaining s' Hin Hp.
    destruct (scan table remaining) as [suf|] eqn:E; [eauto|].
    unfold scan in E. rewrite (find_none _ _ E s' Hin) in Hp.
    discriminate. }
  split.
  { intros remaining. split.
    - intros E s' Hin. unfold scan in E. exact (find_none _ _ E s' Hin).
    - intros H. apply find_all_false. exact H. }
  split.
  { intros fuel found remaining suf H. split.
    - simpl. rewrite H. reflexivity.
    - intros Hne. apply scan_Some in H as [_ H].
      apply peelable_iff in H as [H _].
      apply slice_drop_last_app; assumption. }
  intros fuel found remaining H. simpl. rewrite H. reflexivity.
Qed.

Lemma suffixes_sorted_longest_match_first_witness :
  scan MORPHEMES (py "welo'tasi")
  = Some (mkMorpheme (py "tasi") (py "in state/condition of") (py "suffix")
            [])
  /\ (forall s', In s' (suffixes_of MORPHEMES) ->
                 peelable (py "welo'tasi") s' = true ->
                 length (form s') <= 4)
  /\ (In (mkMorpheme (py "qan")
            (py "device / instrument / 'thing that does it'") (py "suffix")
            []) (suffixes_of MORPHEMES)
      /\ peelable (py "tekekulqan")
           (mkMorpheme (py "qan")
              (py "device / instrument / 'thing that does it'")
              (py "suffix") []) = true
      /\ exists suf, scan MORPHEMES (py "tekekulqan") = Some suf)
  /\ peel_loop MORPHEMES 11 [] (py "welo'tasi")
     = peel_loop MORPHEMES 10
         [ mkMorpheme (py "tasi") (py "in state/condition of")
             (py "suffix") [] ]
         (slice_drop_last (py "welo'tasi") 4)
  /\ (scan MORPHEMES (py "welo'") = None
      /\ peel_loop MORPHEMES 6 [] (py "welo'") = ([], py "welo'")).
Proof.
  assert (scan MORPHEMES (py "welo'tasi")
          = Some (mkMorpheme (py "tasi") (py "in state/condition of")
                    (py "suffix") [])) as E by (vm_compute; reflexivity).
  assert (In (mkMorpheme (py "qan")
                (py "device / instrument / 'thing that does it'")
                (py "suffix") []) (suffixes_of MORPHEMES)) as Hin
    by (vm_compute; auto 10).
  assert (peelable (py "tekekulqan")
            (mkMorpheme (py "qan")
               (py "device / instrument / 'thing that does it'")
               (py "suffix") []) = true) as Hp
    by (vm_compute; reflexivity).
  assert (scan MORPHEMES (py "welo'") = None) as N
    by (vm_compute; reflexivity).
  destruct suffixes_sorted_longest_match_first as [H _].
  destruct (H MORPHEMES)
    as (_ & _ & _ & Hs & Hcomplete & _ & Hstep & Hstop).
  destruct (Hs _ _ E) as (_ & _ & Hmax & _).
  split; [exact E|]. split; [exact Hmax|].
  split; [split; [exact Hin|]; split; [exact Hp|];
          exact (Hcomplete _ _ Hin Hp)|].
  split; [exact (proj1 (Hstep 10 [] _ _ E))|].
  split; [exact N | exact (Hstop 5 [] _ N)].
Defined.

(** *** The root position *)

(** C5, evaluated at the word "si".  No root of the seed table is written
    "si", so the leftover "si" is an unknown root; the code finds "si" in
    the index of all morphemes and returns the suffix entry in the root
    position instead of the UNKNOWN-ROOT morpheme. *)
Theorem analyze_morphemes_si_returns_suffix_entry :
  existsb (fun m => str_eqb (type m) (py "root")
                    && str_eqb (form m) (py "si")) MORPHEMES = false
  /\ peel_loop MORPHEMES (S (length (py "si"))) [] (py "si") = ([], py "si")
  /\ analyze_morphemes (py "si")
     = [ mkMorpheme (py "si") (py "I am (stative in some forms)")
           (py "suffix") [] ]
  /\ analyze_morphemes (py "si") <> [ unknown_root (py "si") ].
Proof.
  repeat split; try (vm_compute; reflexivity).
  vm_compute. discriminate.
Qed.

(** *** Words that are suffix forms *)

(** The word "tasi" is the written form of a suffix of the seed table;
    the loop strips "si" from it and the rest is an unknown root. *)
Lemma suffix_word_tasi_is_split :
  In (py "tasi") (map form (suffixes_of MORPHEMES))
  /\ peel_loop MORPHEMES (S (length (py "tasi"))) [] (py "tasi")
     = ( [ mkMorpheme (py "si") (py "I am (stative in some forms)")
             (py "suffix") [] ],
         py "ta" )
  /\ analyze_morphemes (py "tasi")
     = [ unknown_root (py "ta");
         mkMorpheme (py "si") (py "I am (stative in some forms)")
           (py "suffix") [] ].
Proof.
  repeat split; vm_compute; auto 10.
Qed.

(** C6, as the code has it.  A stripped suffix is never the whole
    residual: it is a proper ending of it, so every suffix found is shorter
    than the word.  A word that is the written form of a suffix of the
    table, and that no candidate is a proper ending of, loses nothing in
    the loop and comes back as one morpheme, written as the whole word.
    Of the five suffix forms of the seed table, "qan", "ul" and "si" come
    back whole, "aqan" loses "qan" and "tasi" loses "si". *)
Theorem suffix_word_kept_whole :
  (forall table : list Morpheme,
      (forall remaining suf,
          scan table remaining = Some suf ->
          form suf <> remaining /\ length (form suf) < length remaining)
      /\ (forall sfo_word,
             Forall (fun m => length (form m) < length sfo_word)
               (fst (peel_loop table (S (length sfo_word)) [] sfo_word)))
      /\ (forall sfo_word s,
             In s table -> is_suffix s = true -> form s = sfo_word ->
             (forall s', In s' (suffixes_of table) -> form s' <> sfo_word ->
                         endswith sfo_word (form s') = false) ->
             peel_loop table (S (length sfo_word)) [] sfo_word
             = ([], sfo_word)
             /\ exists m, segment table sfo_word = [m] /\ form m = sfo_word))
  /\ map (fun m => map form (analyze_morphemes (form m)))
       (suffixes_of MORPHEMES)
     = [ [py "a"; py "qan"]; [py "ta"; py "si"];
         [py "qan"]; [py "ul"]; [py "si"] ].
Proof.
  split; [|vm_compute; reflexivity].
  intros table. split; [|split].
  - intros remaining suf H. apply scan_Some in H as [_ H].
    split; [|apply peelable_proper; exact H].
    apply peelable_iff in H as [_ H]. congruence.
  - intros sfo_word. apply peel_loop_shorter; [lia | constructor].
  - intros sfo_word s Hin Hs Hf Hno.
    assert (scan table sfo_word = None) as Hscan.
    { apply find_all_false. intros s' Hs'. unfold peelable.
      destruct (str_eqb sfo_word (form s')) eqn:E.
      - apply andb_false_r.
      - apply str_eqb_neq in E. rewrite (Hno s' Hs'); [reflexivity|].
        congruence. }
    pose proof (segment_no_peel table sfo_word Hscan) as Hp.
    split; [exact Hp|].
    rewrite segment_unfold, Hp. simpl. unfold attach_root.
    destruct (index_of_mem table s Hin) as [m Hm]. rewrite Hf in Hm.
    rewrite Hm. exists m. split; [reflexivity|].
    apply (index_of_form table _ _ Hm).
Qed.

Lemma suffix_word_kept_whole_witness :
  (scan MORPHEMES (py "welo'tasi")
   = Some (mkMorpheme (py "tasi") (py "in state/condition of")
             (py "suffix") [])
   /\ py "tasi" <> py "welo'tasi")
  /\ (In (mkMorpheme (py "si") (py "I am (stative in some forms)")
            (py "suffix") []) MORPHEMES
      /\ peel_loop MORPHEMES (S (length (py "si"))) [] (py "si")
         = ([], py "si")
      /\ exists m, segment MORPHEMES (py "si") = [m] /\ form m = py "si").
Proof.
  destruct suffix_word_kept_whole as [H _].
  destruct (H MORPHEMES) as (Ha & _ & Hb).
  assert (scan MORPHEMES (py "welo'tasi")
          = Some (mkMorpheme (py "tasi") (py "in state/condition of")
                    (py "suffix") [])) as E by (vm_compute; reflexivity).
  assert (In (mkMorpheme (py "si") (py "I am (stative in some forms)")
                (py "suffix") []) MORPHEMES) as Hin
    by (vm_compute; auto 10).
  split.
  - split; [exact E|]. exact (proj1 (Ha _ _ E)).
  - split; [exact Hin|].
    apply (Hb (py "si")
              (mkMorpheme (py "si") (py "I am (stative in some forms)")
                 (py "suffix") []) Hin).
    + vm_compute. reflexivity.
    + reflexivity.
    + intros s' Hs' Hne. vm_compute in Hs'.
      repeat (destruct Hs' as [<- | Hs'];
              [first [ vm_compute; reflexivity
                     | exfalso; apply Hne; vm_compute; reflexivity ]|]).
      contradiction.
Defined.

(** *** Spelling and non-emptiness *)

(** C7. The written forms of the morphemes returned for a word, put
    together in order, are the word. *)
Theorem analyze_morphemes_spells_word :
  forall sfo_word : str, spelled (analyze_morphemes sfo_word) = sfo_word.
Proof.
  intros sfo_word. unfold analyze_morphemes.
  apply segment_spelled. exact MORPHEMES_forms_nonempty.
Qed.

(** C10. For a non-empty word the result is not empty: the residual the
    loop leaves is not empty, and the result is the suffixes found with,
    in front of them, one morpheme written as the residual, which is an
    entry of the table or the UNKNOWN-ROOT morpheme. *)
Theorem analyze_morphemes_nonempty :
  forall sfo_word : str,
    sfo_word <> [] ->
    analyze_morphemes sfo_word <> []
    /\ exists root peeled residual,
         peel_loop MORPHEMES (S (length sfo_word)) [] sfo_word
         = (peeled, residual)
         /\ scan MORPHEMES residual = None
         /\ residual <> []
         /\ analyze_morphemes sfo_word = root :: peeled
         /\ form root = residual
         /\ (In root MORPHEMES \/ root = unknown_root residual).
Proof.
  intros sfo_word Hne.
  pose proof (peel_loop_residual MORPHEMES MORPHEMES_forms_nonempty
                (S (length sfo_word)) [] sfo_word Hne) as Hres.
  pose proof (peel_loop_settles MORPHEMES (S (length sfo_word)) []
                sfo_word (Nat.lt_succ_diag_r _)) as Hset.
  unfold analyze_morphemes. rewrite segment_unfold.
  destruct (peel_loop MORPHEMES (S (length sfo_word)) [] sfo_word)
    as [peeled residual]. simpl in *.
  destruct (attach_root_nonempty MORPHEMES peeled residual Hres)
    as (root & E & F & G).
  rewrite E. split; [discriminate|].
  exists root, peeled, residual. repeat split; try assumption.
  destruct G as [[_ G] | [_ G]]; auto.
Qed.

Lemma analyze_morphemes_nonempty_witness :
  py "tekekulqan" <> []
  /\ analyze_morphemes (py "tekekulqan") <> [].
Proof.
  assert (py "tekekulqan" <> []) as H by (vm_compute; discriminate).
  split; [exact H|].
  exact (proj1 (analyze_morphemes_nonempty (py "tekekulqan") H)).
Defined.

End LnuBridgeFacts.

(* ================================================================== *)
(** ** The translator of translator.py *)
(* ================================================================== *)

Module TranslatorFacts.
Import PyStr PyDict Translator PyStrFacts PyDictFacts.

Section Lookup.
Context {CF : CaseFold}.
Variable self : LnuTranslator.

(** An entry that is found is stored under a key equal to the trimmed
    word up to case. *)
Lemma lookup_Some (word : str) (e : WordEntry) :
  lookup self word = Some e ->
  exists hw, In (hw, e) (lexicon self) /\ lower hw = lower (strip word).
Proof.
  unfold lookup.
  destruct (dict_get (lexicon self) (strip word)) as [e0|] eqn:E.
  - intros [= <-]. exists (strip word). split; [|reflexivity].
    apply dict_get_In; exact E.
  - destruct (find _ (lexicon self)) as [[hw e1]|] eqn:F; [|discriminate].
    intros [= <-]. apply find_some in F as [F1 F2]. simpl in F2.
    exists hw. split; [exact F1 | apply str_eqb_eq; exact F2].
Qed.

(** The exact key wins over the scan. *)
Lemma lookup_exact (word : str) (e : WordEntry) :
  dict_get (lexicon self) (strip word) = Some e ->
  lookup self word = Some e.
Proof. unfold lookup. intros ->. reflexivity. Qed.

Lemma lookup_None_iff (word : str) :
  lookup self word = None <-> in_store self word = false.
Proof.
  unfold lookup, in_store. split.
  - destruct (dict_get (lexicon self) (strip word)); [discriminate|].
    destruct (find _ (lexicon self)) as [he|] eqn:F; [discriminate|].
    intros _. destruct (existsb _ (lexicon self)) eqn:X; [|reflexivity].
    apply existsb_exists in X as (he & Hin & Hhe).
    rewrite (find_none _ _ F he Hin) in Hhe. discriminate.
  - intros X.
    destruct (dict_get (lexicon self) (strip word)) as [e|] eqn:E.
    + apply dict_get_In in E.
      assert (existsb
                (fun he => str_eqb (lower (fst he)) (lower (strip word)))
                (lexicon self) = true) as Y.
      { apply existsb_exists. exists (strip word, e).
        split; [exact E | apply str_eqb_refl]. }
      congruence.
    + destruct (find _ (lexicon self)) as [he|] eqn:F; [|reflexivity].
      apply find_some in F as [F1 F2].
      assert (existsb
                (fun he => str_eqb (lower (fst he)) (lower (strip word)))
                (lexicon self) = true) as Y.
      { apply existsb_exists. exists he. auto. }
      congruence.
Qed.

(** *** The two branches of [analyze_word] *)

Lemma analyze_word_hit (word : str) (e : WordEntry) :
  lookup self word = Some e ->
  Translator.word (analyze_word self word) = word
  /\ entry (analyze_word self word) = Some e
  /\ guessed_morphemes (analyze_word self word) = []
  /\ animacy_guess (analyze_word self word) = animacy e.
Proof.
  intros H. unfold analyze_word. rewrite H. simpl. auto.
Qed.

Lemma analyze_word_miss (word : str) :
  lookup self word = None ->
  entry (analyze_word self word) = None
  /\ guessed_morphemes (analyze_word self word)
     = match fst (pattern_guess word (collect_worldview_notes word)) with
       | [] => [unknown_morpheme word]
       | m :: ms => m :: ms
       end
  /\ exists post,
       worldview_notes (analyze_word self word)
       = (snd (pattern_guess word (collect_worldview_notes word))
          ++ match fst (pattern_guess word (collect_worldview_notes word))
             with
             | [] => [NO_ENTRY_NOTE]
             | _ :: _ => []
             end)
         ++ post
       /\ (post = []
           \/ exists a, guess_animacy word = Some a
                        /\ post = [py "Animacy guess: " ++ a ++ py "."]).
Proof.
  intros H. unfold analyze_word. rewrite H.
  destruct (pattern_guess word (collect_worldview_notes word))
    as [[|m ms] notes];
    (destruct (guess_animacy word) as [a|]; [destruct (truthy a)|]);
    cbn [fst snd entry guessed_morphemes worldview_notes];
    (split; [reflexivity|]); (split; [reflexivity|]);
    first [ exists [py "Animacy guess: " ++ a ++ py "."];
            split; [rewrite ?app_nil_r; reflexivity|];
            right; exists a; split; reflexivity
          | exists []; split; [rewrite ?app_nil_r; reflexivity|];
            left; reflexivity ].
Qed.

(** *** The pattern heuristics *)

Lemma pattern_guess_jik (word : str) (notes : list str) :
  endswith word (py "jik") = true ->
  pattern_guess word notes
  = ( [ Morpheme3 (slice_drop_last word 3) (py "possible animate root")
          (py "root");
        Morpheme3 (py "-jik") (py "animate plural") (py "suffix") ],
      notes ++ [JIK_NOTE] ).
Proof. intros H. unfold pattern_guess. rewrite H. reflexivity. Qed.

Lemma pattern_guess_apostrophe (word : str) (notes : list str) :
  endswith word (py "jik") = false ->
  contains [APOSTROPHE] word = true ->
  pattern_guess word notes
  = ( map (fun p => Morpheme3 p (py "possible morpheme") (py "unknown"))
        (filter truthy (split_on APOSTROPHE word)),
      notes ++ [APOSTROPHE_NOTE] ).
Proof. intros H1 H2. unfold pattern_guess. rewrite H1, H2. reflexivity. Qed.

Lemma pattern_guess_plain (word : str) (notes : list str) :
  endswith word (py "jik") = false ->
  contains [APOSTROPHE] word = false ->
  pattern_guess word notes = ([], notes).
Proof. intros H1 H2. unfold pattern_guess. rewrite H1, H2. reflexivity. Qed.

Lemma filter_truthy_nil (parts : list str) :
  existsb truthy parts = false -> filter truthy parts = [].
Proof.
  induction parts as [|p parts IH]; simpl; [reflexivity|].
  destruct (truthy p); simpl; [discriminate | exact IH].
Qed.

Lemma filter_truthy_cons (parts : list str) :
  existsb truthy parts = true ->
  exists p ps, filter truthy parts = p :: ps.
Proof.
  induction parts as [|p parts IH]; simpl; [discriminate|].
  destruct (truthy p); simpl; eauto.
Qed.

(** *** The notes *)

Lemma collect_worldview_notes_values (word : str) (note : str) :
  In note (collect_worldview_notes word) ->
  In note (map snd WORLDVIEW_HINTS).
Proof.
  unfold collect_worldview_notes. rewrite !in_map_iff.
  intros (fn & E & H). apply filter_In in H as [H _]. eauto.
Qed.

Lemma NO_ENTRY_NOTE_not_collected (word : str) :
  ~ In NO_ENTRY_NOTE (collect_worldview_notes word).
Proof.
  intros H. apply collect_worldview_notes_values in H.
  vm_compute in H. intuition discriminate.
Qed.

Lemma NO_ENTRY_NOTE_not_animacy (a : str) :
  NO_ENTRY_NOTE <> py "Animacy guess: " ++ a ++ py ".".
Proof. vm_compute. discriminate. Qed.

End Lookup.

(** *** Tokens *)

Lemma split_ws_from_truthy (cur s : str) :
  Forall (fun t => truthy t = true) (split_ws_from cur s).
Proof.
  revert cur. induction s as [|c s IH]; intros cur; simpl.
  - destruct cur; constructor; [apply truthy_rev_cons | constructor].
  - destruct (isspace c); [|apply IH].
    destruct cur; [apply IH|].
    constructor; [apply truthy_rev_cons | apply IH].
Qed.

Lemma isspace_replace_comma (c : char) :
  isspace (if (c =? COMMA)%N then SPACE else c) = is_separator c.
Proof.
  unfold is_separator. destruct (c =? COMMA)%N.
  - rewrite orb_true_r. reflexivity.
  - rewrite orb_false_r. reflexivity.
Qed.

Lemma filter_truthy_rev_cons (x : char) (cur : str) (l : list str) :
  filter truthy (rev (x :: cur) :: l) = rev (x :: cur) :: filter truthy l.
Proof.
  cbn [filter]. rewrite truthy_rev_cons. reflexivity.
Qed.

(** Splitting after the commas are replaced cuts at the same places as
    cutting at every separator, empty pieces apart. *)
Lemma split_ws_from_cut (cur s : str) :
  filter truthy (split_ws_from cur (replace_char COMMA SPACE s))
  = filter truthy (cut_at_separators cur s).
Proof.
  revert cur. induction s as [|c s IH]; intros cur.
  - destruct cur; reflexivity.
  - cbn [replace_char map split_ws_from cut_at_separators].
    rewrite isspace_replace_comma.
    destruct (is_separator c) eqn:E.
    + destruct cur as [|x cur].
      * cbn [rev filter truthy]. apply IH.
      * rewrite !filter_truthy_rev_cons. f_equal. apply IH.
    + unfold is_separator in E. apply orb_false_iff in E as [_ E].
      rewrite E. apply IH.
Qed.

Lemma tokenize_spec_eq (sentence : str) :
  tokenize sentence = tokenize_spec sentence.
Proof. apply split_ws_from_cut. Qed.

Lemma cut_at_separators_clean (cur s : str) :
  Forall (fun c => is_separator c = false) cur ->
  Forall (Forall (fun c => is_separator c = false))
    (cut_at_separators cur s).
Proof.
  revert cur. induction s as [|c s IH]; intros cur Hcur; simpl.
  - constructor; [apply Forall_rev; exact Hcur | constructor].
  - destruct (is_separator c) eqn:E.
    + constructor; [apply Forall_rev; exact Hcur | apply IH; constructor].
    + apply IH. constructor; assumption.
Qed.

(** No token is empty, and no token holds a whitespace character or a
    comma. *)
Lemma tokenize_clean (sentence : str) :
  Forall (fun tok => tok <> []
                     /\ Forall (fun c => isspace c = false /\ c <> COMMA)
                          tok)
    (tokenize sentence).
Proof.
  rewrite tokenize_spec_eq. unfold tokenize_spec.
  apply Forall_forall. intros tok H. apply filter_In in H as [H T].
  split; [destruct tok; [discriminate | congruence]|].
  pose proof (cut_at_separators_clean [] sentence (Forall_nil _)) as C.
  rewrite Forall_forall in C. specialize (C tok H).
  apply Forall_impl with (2 := C). intros c Hc.
  unfold is_separator in Hc. apply orb_false_iff in Hc as [H1 H2].
  split; [exact H1 | apply N.eqb_neq; exact H2].
Qed.

Lemma analyze_word_word {CF : CaseFold} (self : LnuTranslator)
    (word : str) :
  Translator.word (analyze_word self word) = word.
Proof.
  unfold analyze_word. destruct (lookup self word); [reflexivity|].
  destruct (pattern_guess word (collect_worldview_notes word))
    as [[|m ms] notes]; reflexivity.
Qed.

(** *** Word analysis *)

(** C1. A word whose trimmed form equals a key of the lexicon up to case
    is analysed with the entry stored under such a key (under the exact
    key when there is one) and with no guessed morphemes; a word with no
    such key is analysed with no entry and at least one guessed
    morpheme. *)
Theorem analyze_word_entry_or_guess :
  forall (CF : CaseFold) (self : LnuTranslator) (word : str),
    (in_store self word = true ->
     exists hw e,
       In (hw, e) (lexicon self)
       /\ lower hw = lower (strip word)
       /\ (forall e0,
              dict_get (lexicon self) (strip word) = Some e0 -> e0 = e)
       /\ entry (analyze_word self word) = Some e
       /\ guessed_morphemes (analyze_word self word) = [])
    /\ (in_store self word = false ->
        entry (analyze_word self word) = None
        /\ guessed_morphemes (analyze_word self word) <> []).
Proof.
  intros CF self word. split; intros H.
  - destruct (lookup self word) as [e|] eqn:L.
    + destruct (lookup_Some self word e L) as (hw & H1 & H2).
      destruct (analyze_word_hit self word e L) as (_ & H3 & H4 & _).
      exists hw, e. repeat split; try assumption.
      intros e0 E0. apply lookup_exact in E0. congruence.
    + apply lookup_None_iff in L. congruence.
  - apply lookup_None_iff in H.
    destruct (analyze_word_miss self word H) as (H1 & H2 & _).
    split; [exact H1|]. rewrite H2.
    destruct (fst (pattern_guess word (collect_worldview_notes word)));
      discriminate.
Qed.

Lemma analyze_word_entry_or_guess_witness :
  (in_store (init None) (py " Kesalul ") = true
   /\ entry (analyze_word (init None) (py " Kesalul "))
      = Some entry_kesalul
   /\ guessed_morphemes (analyze_word (init None) (py " Kesalul ")) = [])
  /\ (in_store (init None) (py "sipujik") = false
      /\ entry (analyze_word (init None) (py "sipujik")) = None
      /\ guessed_morphemes (analyze_word (init None) (py "sipujik")) <> []).
Proof.
  assert (in_store (init None) (py " Kesalul ") = true) as Hin
    by (vm_compute; reflexivity).
  assert (in_store (init None) (py "sipujik") = false) as Hout
    by (vm_compute; reflexivity).
  split.
  - split; [exact Hin|].
    destruct (proj1 (analyze_word_entry_or_guess ascii_case (init None)
                       (py " Kesalul ")) Hin)
      as (hw & e & _ & _ & _ & He & Hg).
    split; [vm_compute; reflexivity | exact Hg].
  - split; [exact Hout|].
    exact (proj2 (analyze_word_entry_or_guess ascii_case (init None)
                    (py "sipujik")) Hout).
Defined.

(** The empty query and a query of three spaces are analysed like any
    unknown word. *)
Lemma analyze_word_blank_seed_lexicon :
  analyze_word (init None) []
  = {| word := [];
       entry := None;
       guessed_morphemes := [unknown_morpheme []];
       animacy_guess := None;
       worldview_notes := [NO_ENTRY_NOTE] |}
  /\ analyze_word (init None) (py "   ")
     = {| word := py "   ";
          entry := None;
          guessed_morphemes := [unknown_morpheme (py "   ")];
          animacy_guess := None;
          worldview_notes := [NO_ENTRY_NOTE] |}.
Proof.
  split; vm_compute; reflexivity.
Qed.

(** C3, as the code has it.  [analyze_word] has no result set apart for
    empty input: for a query that is empty or all whitespace, and a lexicon
    without an empty key, it returns the analysis of an unknown word: no
    entry, the one "unknown" morpheme written as the query itself, and the
    note that there is no lexicon entry yet. *)
Theorem analyze_word_blank_is_unknown_word :
  forall (CF : CaseFold) (self : LnuTranslator) (word : str),
    blank word = true ->
    (forall hw e, In (hw, e) (lexicon self) -> hw <> []) ->
    entry (analyze_word self word) = None
    /\ guessed_morphemes (analyze_word self word) = [unknown_morpheme word]
    /\ In NO_ENTRY_NOTE (worldview_notes (analyze_word self word)).
Proof.
  intros CF self word Hb Hkeys.
  assert (lookup self word = None) as L.
  { apply lookup_None_iff. unfold in_store. rewrite (strip_blank word Hb).
    destruct (existsb _ (lexicon self)) eqn:X; [|reflexivity].
    apply existsb_exists in X as ([hw e] & Hin & E). simpl in E.
    apply str_eqb_eq in E.
    assert (lower [] = []) as E0 by (apply lower_empty; reflexivity).
    rewrite E0 in E. apply (proj1 (lower_empty hw)) in E.
    destruct (Hkeys hw e Hin E). }
  assert (endswith word (py "jik") = false) as Hj.
  { apply (blank_not_endswith word (py "jik") 107%N Hb);
      vm_compute; auto. }
  assert (contains [APOSTROPHE] word = false) as Ha.
  { apply (blank_not_contains word APOSTROPHE Hb). reflexivity. }
  destruct (analyze_word_miss self word L) as (H1 & H2 & post & H3 & _).
  rewrite (pattern_guess_plain word _ Hj Ha) in H2, H3. simpl in H2, H3.
  repeat split; try assumption.
  rewrite H3. apply in_or_app. left. apply in_or_app. right. left.
  reflexivity.
Qed.

Lemma analyze_word_blank_is_unknown_word_witness :
  blank (py "   ") = true
  /\ (forall hw e, In (hw, e) (lexicon (init None)) -> hw <> [])
  /\ guessed_morphemes (analyze_word (init None) (py "   "))
     = [unknown_morpheme (py "   ")].
Proof.
  assert (blank (py "   ") = true) as Hb by (vm_compute; reflexivity).
  assert (forall hw e, In (hw, e) (lexicon (init None)) -> hw <> [])
    as Hkeys.
  { intros hw e Hin. vm_compute in Hin.
    repeat (destruct Hin as [[= <- <-] | Hin]; [discriminate|]).
    contradiction. }
  split; [exact Hb|]. split; [exact Hkeys|].
  exact (proj1 (proj2 (analyze_word_blank_is_unknown_word ascii_case
                         (init None) (py "   ") Hb Hkeys))).
Defined.

(** The word "sipujik" has no entry in the seed lexicon, and the notes of
    its analysis do not say so. *)
Lemma analyze_word_sipujik_notes :
  lookup (init None) (py "sipujik") = None
  /\ worldview_notes (analyze_word (init None) (py "sipujik"))
     = [JIK_NOTE; py "Animacy guess: animate."]
  /\ ~ In NO_ENTRY_NOTE
       (worldview_notes (analyze_word (init None) (py "sipujik"))).
Proof.
  repeat split; try (vm_compute; reflexivity).
  vm_compute. intuition discriminate.
Qed.

(** C4, as the code has it.  The analysis of a word with no entry always
    carries at least one note.  The note that there is no lexicon entry
    yet is attached when neither pattern heuristic guesses a morpheme: the
    word does not end in "jik", and has no apostrophe or nothing but
    apostrophes.  A word ending in "jik" gets the note on "-jik" instead,
    and a word with an apostrophe and a non-empty piece gets the note on
    apostrophes instead. *)
Theorem analyze_word_miss_notes :
  forall (CF : CaseFold) (self : LnuTranslator) (word : str),
    lookup self word = None ->
    worldview_notes (analyze_word self word) <> []
    /\ (endswith word (py "jik") = true ->
        In JIK_NOTE (worldview_notes (analyze_word self word))
        /\ ~ In NO_ENTRY_NOTE (worldview_notes (analyze_word self word)))
    /\ (endswith word (py "jik") = false ->
        contains [APOSTROPHE] word = true ->
        existsb truthy (split_on APOSTROPHE word) = true ->
        In APOSTROPHE_NOTE (worldview_notes (analyze_word self word))
        /\ ~ In NO_ENTRY_NOTE (worldview_notes (analyze_word self word)))
    /\ (endswith word (py "jik") = false ->
        contains [APOSTROPHE] word = false
        \/ existsb truthy (split_on APOSTROPHE word) = false ->
        In NO_ENTRY_NOTE (worldview_notes (analyze_word self word))
        /\ guessed_morphemes (analyze_word self word)
           = [unknown_morpheme word]).
Proof.
  intros CF self word L.
  destruct (analyze_word_miss self word L) as (_ & G & post & N & Hpost).
  assert (~ In NO_ENTRY_NOTE post) as Hnpost.
  { destruct Hpost as [-> | (a & _ & ->)]; [tauto|].
    intros [H | []]. symmetry in H.
    exact (NO_ENTRY_NOTE_not_animacy a H). }
  split; [|split; [|split]].
  - rewrite N. intros C. apply (f_equal (@length str)) in C.
    destruct (endswith word (py "jik")) eqn:Hj;
      [rewrite (pattern_guess_jik word _ Hj) in C
      |destruct (contains [APOSTROPHE] word) eqn:Ha;
       [rewrite (pattern_guess_apostrophe word _ Hj Ha) in C
       |rewrite (pattern_guess_plain word _ Hj Ha) in C]];
      cbn [fst snd] in C; rewrite !length_app in C; cbn [length] in C; lia.
  - intros Hj. rewrite (pattern_guess_jik word _ Hj) in N. simpl in N.
    rewrite N, app_nil_r. split.
    + apply in_or_app; left. apply in_or_app; right. left; reflexivity.
    + intros Hin. apply in_app_or in Hin as [Hin | Hin]; [|tauto].
      apply in_app_or in Hin as [Hin | [Hin | []]].
      * exact (NO_ENTRY_NOTE_not_collected word Hin).
      * vm_compute in Hin. discriminate.
  - intros Hj Ha Hp.
    rewrite (pattern_guess_apostrophe word _ Hj Ha) in N. simpl in N.
    destruct (filter_truthy_cons _ Hp) as (p & ps & Ep).
    rewrite Ep in N. simpl in N. rewrite N, app_nil_r. split.
    + apply in_or_app; left. apply in_or_app; right. left; reflexivity.
    + intros Hin. apply in_app_or in Hin as [Hin | Hin]; [|tauto].
      apply in_app_or in Hin as [Hin | [Hin | []]].
      * exact (NO_ENTRY_NOTE_not_collected word Hin).
      * vm_compute in Hin. discriminate.
  - intros Hj Hor.
    assert (fst (pattern_guess word (collect_worldview_notes word)) = [])
      as Hg.
    { destruct (contains [APOSTROPHE] word) eqn:Ha.
      - destruct Hor as [Hor | Hor]; [discriminate|].
        rewrite (pattern_guess_apostrophe word _ Hj Ha). simpl.
        rewrite (filter_truthy_nil _ Hor). reflexivity.
      - rewrite (pattern_guess_plain word _ Hj Ha). reflexivity. }
    rewrite Hg in G, N. split; [|exact G].
    rewrite N. apply in_or_app; left. apply in_or_app; right.
    left; reflexivity.
Qed.

Lemma analyze_word_miss_notes_witness :
  (lookup (init None) (py "sipujik") = None
   /\ endswith (py "sipujik") (py "jik") = true
   /\ In JIK_NOTE (worldview_notes (analyze_word (init None) (py "sipujik"))))
  /\ (lookup (init None) (py "wela'lin") = None
      /\ endswith (py "wela'lin") (py "jik") = false
      /\ contains [APOSTROPHE] (py "wela'lin") = true
      /\ existsb truthy (split_on APOSTROPHE (py "wela'lin")) = true
      /\ In APOSTROPHE_NOTE
           (worldview_notes (analyze_word (init None) (py "wela'lin"))))
  /\ (lookup (init None) (py "sipu") = None
      /\ endswith (py "sipu") (py "jik") = false
      /\ contains [APOSTROPHE] (py "sipu") = false
      /\ In NO_ENTRY_NOTE
           (worldview_notes (analyze_word (init None) (py "sipu")))).
Proof.
  assert (lookup (init None) (py "sipujik") = None) as L1
    by (vm_compute; reflexivity).
  assert (lookup (init None) (py "wela'lin") = None) as L2
    by (vm_compute; reflexivity).
  assert (lookup (init None) (py "sipu") = None) as L3
    by (vm_compute; reflexivity).
  assert (endswith (py "sipujik") (py "jik") = true) as J1
    by (vm_compute; reflexivity).
  assert (endswith (py "wela'lin") (py "jik") = false) as J2
    by (vm_compute; reflexivity).
  assert (endswith (py "sipu") (py "jik") = false) as J3
    by (vm_compute; reflexivity).
  assert (contains [APOSTROPHE] (py "wela'lin") = true) as A2
    by (vm_compute; reflexivity).
  assert (existsb truthy (split_on APOSTROPHE (py "wela'lin")) = true)
    as P2 by (vm_compute; reflexivity).
  assert (contains [APOSTROPHE] (py "sipu") = false) as A3
    by (vm_compute; reflexivity).
  destruct (analyze_word_miss_notes ascii_case (init None) (py "sipujik")
              L1) as (_ & H1 & _ & _).
  destruct (analyze_word_miss_notes ascii_case (init None) (py "wela'lin")
              L2) as (_ & _ & H2 & _).
  destruct (analyze_word_miss_notes ascii_case (init None) (py "sipu") L3)
    as (_ & _ & _ & H3).
  split; [|split].
  - split; [exact L1|]. split; [exact J1|]. exact (proj1 (H1 J1)).
  - split; [exact L2|]. split; [exact J2|]. split; [exact A2|].
    split; [exact P2|]. exact (proj1 (H2 J2 A2 P2)).
  - split; [exact L3|]. split; [exact J3|]. split; [exact A3|].
    exact (proj1 (H3 J3 (or_introl A3))).
Defined.

(** *** Sentences *)

(** C9. The tokens of a sentence are the non-empty pieces between
    whitespace characters and commas, in order; no token is empty or holds
    a separator.  The analyses are those of [analyze_word] on each token,
    one per token and in the order of the tokens.  The sentence
    "Kwe', teluisi Katew." has the three tokens "Kwe'", "teluisi" and
    "Katew." and the three analyses of these words. *)
Theorem analyze_sentence_tokens_in_order :
  forall (CF : CaseFold) (self : LnuTranslator) (sentence : str),
    tokens (analyze_sentence self sentence) = tokenize_spec sentence
    /\ Forall (fun tok =>
                 tok <> []
                 /\ Forall (fun c => isspace c = false /\ c <> COMMA) tok)
         (tokens (analyze_sentence self sentence))
    /\ analyses (analyze_sentence self sentence)
       = map (fun tok => to_dict (analyze_word self tok))
           (tokens (analyze_sentence self sentence))
    /\ map d_word (analyses (analyze_sentence self sentence))
       = tokens (analyze_sentence self sentence)
    /\ length (analyses (analyze_sentence self sentence))
       = length (tokens (analyze_sentence self sentence))
    /\ tokens (analyze_sentence self (py "Kwe', teluisi Katew."))
       = [py "Kwe'"; py "teluisi"; py "Katew."]
    /\ analyses (analyze_sentence self (py "Kwe', teluisi Katew."))
       = [ to_dict (analyze_word self (py "Kwe'"));
           to_dict (analyze_word self (py "teluisi"));
           to_dict (analyze_word self (py "Katew.")) ].
Proof.
  intros CF self sentence.
  assert (tokenize (py "Kwe', teluisi Katew.")
          = [py "Kwe'"; py "teluisi"; py "Katew."]) as E
    by (vm_compute; reflexivity).
  unfold analyze_sentence; cbn [tokens analyses].
  split; [apply tokenize_spec_eq|].
  split; [apply tokenize_clean|].
  split; [reflexivity|].
  split.
  { rewrite map_map. induction (tokenize sentence) as [|tok l IH];
      [reflexivity|].
    cbn [map]. rewrite IH. unfold to_dict; cbn [d_word].
    rewrite analyze_word_word. reflexivity. }
  split; [apply length_map|].
  rewrite E. split; reflexivity.
Qed.

(** *** Term generation *)

(** C8. Every request gets a non-empty list of candidates that ends with
    the generic fallback candidate; when the refrigerator pattern does not
    match, as for a request with empty concept and purpose, that candidate
    is the whole list; and every candidate has a non-empty caution. *)
Theorem generate_modern_term_ends_with_fallback :
  forall (CF : CaseFold) (req : GenerationRequest),
    generate_modern_term req <> []
    /\ (exists front,
           generate_modern_term req = front ++ [generic_candidate])
    /\ (refrigerator_pattern req = false ->
        generate_modern_term req = [generic_candidate])
    /\ Forall (fun c => caution c <> []) (generate_modern_term req)
    /\ generate_modern_term (mkGenerationRequest [] [] (domain_tags req))
       = [generic_candidate].
Proof.
  intros CF req.
  assert (caution refrigerator_candidate <> []) as C1
    by (vm_compute; discriminate).
  assert (caution generic_candidate <> []) as C2
    by (vm_compute; discriminate).
  assert (refrigerator_pattern (mkGenerationRequest [] [] (domain_tags req))
          = false) as E.
  { unfold refrigerator_pattern; cbn [concept purpose].
    rewrite (proj2 (lower_empty []) eq_refl). reflexivity. }
  unfold generate_modern_term. rewrite E.
  destruct (refrigerator_pattern req); cbn [app].
  - split; [discriminate|]. split; [exists [refrigerator_candidate]; auto|].
    split; [discriminate|]. split; [|reflexivity].
    repeat constructor; assumption.
  - split; [discriminate|]. split; [exists []; auto|].
    split; [reflexivity|]. split; [|reflexivity].
    repeat constructor; assumption.
Qed.

Lemma generate_modern_term_ends_with_fallback_witness :
  refrigerator_pattern
    (mkGenerationRequest (py "Bicycle") (py "moving around") [py "travel"])
  = false
  /\ generate_modern_term
       (mkGenerationRequest (py "Bicycle") (py "moving around")
          [py "travel"])
     = [generic_candidate].
Proof.
  assert (refrigerator_pattern
            (mkGenerationRequest (py "Bicycle") (py "moving around")
               [py "travel"]) = false) as H by (vm_compute; reflexivity).
  split; [exact H|].
  destruct (generate_modern_term_ends_with_fallback ascii_case
              (mkGenerationRequest (py "Bicycle") (py "moving around")
                 [py "travel"])) as (_ & _ & G & _).
  exact (G H).
Defined.

End TranslatorFacts.

(* ================================================================== *)
(** ** More facts on strings *)
(* ================================================================== *)

Module PyStrMore.
Import PyStr PyStrFacts.

(** *** Stripping *)

Lemma lstrip_cases (s : str) :
  lstrip s = [] \/ exists c t, lstrip s = c :: t /\ isspace c = false.
Proof.
  induction s as [|c s IH]; simpl; [left; reflexivity|].
  destruct (isspace c) eqn:E; [exact IH|]. right. eauto.
Qed.

Lemma lstrip_fixed (c : char) (t : str) :
  isspace c = false -> lstrip (c :: t) = c :: t.
Proof. intros E. simpl. rewrite E. reflexivity. Qed.

Lemma lstrip_idem (s : str) : lstrip (lstrip s) = lstrip s.
Proof.
  destruct (lstrip_cases s) as [-> | (c & t & -> & E)]; [reflexivity|].
  apply lstrip_fixed; exact E.
Qed.

Lemma lstrip_app (u v : str) :
  lstrip (u ++ v)
  = match lstrip u with [] => lstrip v | _ :: _ => lstrip u ++ v end.
Proof.
  induction u as [|c u IH]; simpl.
  - destruct (lstrip v); reflexivity.
  - destruct (isspace c); [exact IH | reflexivity].
Qed.

Lemma blank_rev (s : str) : blank (rev s) = blank s.
Proof.
  unfold blank. destruct (forallb isspace s) eqn:E.
  - apply forallb_forall. intros c Hc. apply in_rev in Hc.
    rewrite forallb_forall in E. auto.
  - destruct (forallb isspace (rev s)) eqn:F; [|reflexivity].
    rewrite <- E. symmetry. apply forallb_forall. intros c Hc.
    rewrite forallb_forall in F. apply F. apply in_rev.
    rewrite rev_involutive. exact Hc.
Qed.

Lemma lstrip_blank_app (pre s : str) :
  blank pre = true -> lstrip (pre ++ s) = lstrip s.
Proof.
  intros H. rewrite lstrip_app, (lstrip_blank pre H). reflexivity.
Qed.

Lemma rstrip_app_blank (s post : str) :
  blank post = true -> rstrip (s ++ post) = rstrip s.
Proof.
  intros H. unfold rstrip. rewrite rev_app_distr, lstrip_blank_app;
    [reflexivity|]. rewrite blank_rev. exact H.
Qed.

Lemma rstrip_cons (c : char) (t : str) :
  isspace c = false -> rstrip (c :: t) = c :: rstrip t.
Proof.
  intros E. unfold rstrip. simpl rev. rewrite lstrip_app.
  destruct (lstrip (rev t)) as [|x u] eqn:L.
  - rewrite (lstrip_fixed c [] E). reflexivity.
  - rewrite rev_app_distr. reflexivity.
Qed.

Lemma rstrip_idem (s : str) : rstrip (rstrip s) = rstrip s.
Proof.
  unfold rstrip. rewrite rev_involutive, lstrip_idem. reflexivity.
Qed.

(** Stripping twice is stripping once. *)
Lemma strip_idem (s : str) : strip (strip s) = strip s.
Proof.
  unfold strip at 2 3.
  destruct (lstrip_cases s) as [-> | (c & t & -> & E)]; [reflexivity|].
  rewrite (rstrip_cons c t E). unfold strip.
  rewrite (lstrip_fixed c _ E), (rstrip_cons c _ E), rstrip_idem.
  reflexivity.
Qed.

(** Whitespace around a string does not change what is left of it. *)
Lemma strip_surround (pre s post : str) :
  blank pre = true -> blank post = true ->
  strip (pre ++ s ++ post) = strip s.
Proof.
  intros Hpre Hpost. unfold strip.
  rewrite (lstrip_blank_app pre _ Hpre), lstrip_app.
  destruct (lstrip s) as [|c t] eqn:L.
  - rewrite (lstrip_blank post Hpost). reflexivity.
  - apply rstrip_app_blank; exact Hpost.
Qed.

(** What [strip] returns has no whitespace at either end. *)
Lemma strip_ends (s : str) :
  strip s = []
  \/ exists c t, strip s = c :: t /\ isspace c = false
                 /\ isspace (last (c :: t) c) = false.
Proof.
  unfold strip.
  destruct (lstrip_cases s) as [-> | (c & t & -> & E)];
    [left; reflexivity|].
  right. rewrite (rstrip_cons c t E). exists c, (rstrip t).
  split; [reflexivity|]. split; [exact E|].
  unfold rstrip.
  destruct (lstrip_cases (rev t)) as [-> | (x & u & -> & F)];
    [exact E|].
  simpl rev.
  replace (c :: rev u ++ [x]) with ((c :: rev u) ++ [x]) by reflexivity.
  rewrite last_last. exact F.
Qed.

(** *** Splitting on a character and joining *)

Lemma split_on_from_nonempty (sep : char) (cur s : str) :
  split_on_from sep cur s <> [].
Proof.
  revert cur. induction s as [|c s IH]; intros cur; simpl; [discriminate|].
  destruct (c =? sep)%N; [discriminate | apply IH].
Qed.

Lemma join_cons (sep p : str) (rest : list str) :
  rest <> [] -> join sep (p :: rest) = p ++ sep ++ join sep rest.
Proof. destruct rest; [congruence | reflexivity]. Qed.

Lemma join_split_on_from (sep : char) (cur s : str) :
  join [sep] (split_on_from sep cur s) = rev cur ++ s.
Proof.
  revert cur. induction s as [|c s IH]; intros cur.
  - simpl. rewrite app_nil_r. reflexivity.
  - simpl split_on_from. destruct (c =? sep)%N eqn:E.
    + apply N.eqb_eq in E. subst c.
      rewrite join_cons by apply split_on_from_nonempty.
      rewrite IH. reflexivity.
    + rewrite IH. simpl. rewrite <- app_assoc. reflexivity.
Qed.

(** Joining the pieces with the separator gives the string back. *)
Lemma join_split_on (sep : char) (s : str) :
  join [sep] (split_on sep s) = s.
Proof. apply join_split_on_from. Qed.

Lemma concat_split_on_from (sep : char) (cur s : str) :
  concat (split_on_from sep cur s)
  = rev cur ++ filter (fun c => negb (c =? sep)%N) s.
Proof.
  revert cur. induction s as [|c s IH]; intros cur; simpl.
  - reflexivity.
  - destruct (c =? sep)%N eqn:E; simpl.
    + rewrite IH. reflexivity.
    + rewrite IH. simpl. rewrite <- app_assoc. reflexivity.
Qed.

Lemma split_on_from_clean (sep : char) (cur s : str) :
  ~ In sep cur ->
  Forall (fun p => ~ In sep p) (split_on_from sep cur s).
Proof.
  revert cur. induction s as [|c s IH]; intros cur Hcur; simpl.
  - constructor; [|constructor]. intros H. apply in_rev in H. auto.
  - destruct (c =? sep)%N eqn:E.
    + constructor; [|apply IH; intros []].
      intros H. apply in_rev in H. auto.
    + apply IH. apply N.eqb_neq in E. intros [H | H]; auto.
Qed.

Lemma concat_filter_truthy (l : list str) :
  concat (filter truthy l) = concat l.
Proof.
  induction l as [|p l IH]; simpl; [reflexivity|].
  destruct p; simpl; [exact IH|]. rewrite IH. reflexivity.
Qed.

End PyStrMore.

(* ================================================================== *)
(** ** More on lnu_bridge.py *)
(* ================================================================== *)

Module LnuBridgeMore.
Import PyStr PyDict PyList LnuBridge.
Import PyStrFacts PyDictFacts PyListFacts LnuBridgeFacts.

(** *** Dictionaries filled entry by entry *)

Lemma find_app {A : Type} (P : A -> bool) (l1 l2 : list A) :
  find P (l1 ++ l2)
  = match find P l1 with Some x => Some x | None => find P l2 end.
Proof.
  induction l1 as [|x l1 IH]; simpl; [reflexivity|].
  destruct (P x); [reflexivity | exact IH].
Qed.

Lemma dict_get_fold_set {A : Type} (key : A -> str) (l : list A)
    (d : dict A) (k : str) :
  dict_get (fold_left (fun d x => dict_set d (key x) x) l d) k
  = match find (fun x => str_eqb (key x) k) (rev l) with
    | Some x => Some x
    | None => dict_get d k
    end.
Proof.
  revert d. induction l as [|x l IH]; intros d; simpl; [reflexivity|].
  rewrite IH, find_app, dict_get_set. simpl.
  destruct (find (fun x0 => str_eqb (key x0) k) (rev l)); [reflexivity|].
  destruct (str_eqb (key x) k); reflexivity.
Qed.

(** X1. Right after [add_entry], [lookup_word] finds the entry under its
    own spelling and every other spelling as before.  After any run of
    [add_entry] calls it finds, for a spelling, the last entry added under
    it, and for a spelling none of the entries has, what the lexicon held
    before.  In a lexicon filled by [add_entry] alone, an entry that is
    found is spelled as asked. *)
Theorem lookup_word_after_add_entry :
  forall (LEXICON : dict LexiconEntry) (entry : LexiconEntry)
         (entries : list LexiconEntry) (sfo_word : str),
    lookup_word_in (add_entry LEXICON entry) sfo_word
    = (if str_eqb (sfo entry) sfo_word then Some entry
       else lookup_word_in LEXICON sfo_word)
    /\ lookup_word_in (fold_left add_entry entries LEXICON) sfo_word
       = match find (fun e => str_eqb (sfo e) sfo_word) (rev entries) with
         | Some e => Some e
         | None => lookup_word_in LEXICON sfo_word
         end
    /\ (forall e,
           lookup_word_in (fold_left add_entry entries []) sfo_word = Some e
           -> sfo e = sfo_word /\ In e entries).
Proof.
  intros LEXICON entry entries sfo_word.
  assert (forall L,
             lookup_word_in (fold_left add_entry entries L) sfo_word
             = match find (fun e => str_eqb (sfo e) sfo_word) (rev entries)
               with
               | Some e => Some e
               | None => lookup_word_in L sfo_word
               end) as G.
  { intros L. unfold lookup_word_in.
    exact (dict_get_fold_set sfo entries L sfo_word). }
  split; [|split].
  - unfold lookup_word_in, add_entry. apply dict_get_set.
  - apply G.
  - intros e. rewrite G.
    destruct (find _ (rev entries)) as [e0|] eqn:F; [|discriminate].
    intros [= <-]. apply find_some in F as [F1 F2].
    split; [apply str_eqb_eq; exact F2 | apply in_rev; exact F1].
Qed.

Lemma lookup_word_after_add_entry_witness :
  exists e,
    lookup_word (py "epsi") = Some e
    /\ sfo e = py "epsi" /\ In e SEED_ENTRIES.
Proof.
  destruct (lookup_word (py "epsi")) as [e|] eqn:H.
  - exists e. split; [reflexivity|].
    destruct (lookup_word_after_add_entry [] e SEED_ENTRIES (py "epsi"))
      as (_ & _ & G).
    exact (G e H).
  - vm_compute in H. discriminate.
Defined.

(** X2. The index of a morpheme table gives, for a written form, the last
    entry of the table with that form, and nothing for a form no entry
    has. *)
Theorem index_of_last_entry :
  forall (table : list Morpheme) (k : str),
    dict_get (index_of table) k
    = find (fun m => str_eqb (form m) k) (rev table).
Proof.
  intros table k. unfold index_of.
  rewrite (dict_get_fold_set form table [] k).
  destruct (find _ (rev table)); reflexivity.
Qed.

(** *** The loop, for any table *)

Lemma peel_loop_step (table : list Morpheme) (fuel : nat)
    (found : list Morpheme) (remaining : str) (suf : Morpheme) :
  scan table remaining = Some suf ->
  peel_loop table (S fuel) found remaining
  = peel_loop table fuel (suf :: found)
      (slice_drop_last remaining (length (form suf))).
Proof. intros H. simpl. rewrite H. reflexivity. Qed.

Lemma peel_loop_count (table : list Morpheme) (fuel : nat)
    (found : list Morpheme) (remaining : str) :
  length (fst (peel_loop table fuel found remaining))
  + length (snd (peel_loop table fuel found remaining))
  <= length found + length remaining.
Proof.
  revert found remaining.
  induction fuel as [|fuel IH]; intros found remaining; simpl; [lia|].
  destruct (scan table remaining) as [suf|] eqn:E; [|simpl; lia].
  apply (scan_Some table) in E as [_ E]. apply peelable_shrinks in E.
  specialize (IH (suf :: found)
                (slice_drop_last remaining (length (form suf)))).
  simpl in IH. lia.
Qed.

(** The suffixes found go in front of those found before, and what was
    found before plays no part in the search. *)
Lemma peel_loop_acc (table : list Morpheme) (fuel : nat)
    (found : list Morpheme) (remaining : str) :
  peel_loop table fuel found remaining
  = (fst (peel_loop table fuel [] remaining) ++ found,
     snd (peel_loop table fuel [] remaining)).
Proof.
  revert found remaining.
  induction fuel as [|fuel IH]; intros found remaining; simpl;
    [reflexivity|].
  destruct (scan table remaining) as [suf|] eqn:E; [|reflexivity].
  rewrite (IH (suf :: found)), (IH [suf]). simpl.
  rewrite <- app_assoc. reflexivity.
Qed.

Lemma peel_loop_suffixes (table : list Morpheme) (fuel : nat)
    (found : list Morpheme) (remaining : str) :
  Forall (fun m => In m (suffixes_of table)) found ->
  Forall (fun m => In m (suffixes_of table))
    (fst (peel_loop table fuel found remaining)).
Proof.
  revert found remaining.
  induction fuel as [|fuel IH]; intros found remaining F; simpl;
    [exact F|].
  destruct (scan table remaining) as [suf|] eqn:E; [|exact F].
  apply IH. constructor; [|exact F]. apply (scan_Some table) in E. tauto.
Qed.

Lemma attach_root_acc (table : list Morpheme) (found : list Morpheme)
    (remaining : str) :
  attach_root table found remaining
  = attach_root table [] remaining ++ found
  /\ length (attach_root table [] remaining) <= 1.
Proof.
  unfold attach_root.
  destruct (dict_get (index_of table) remaining);
    [|destruct (truthy remaining)]; simpl; auto.
Qed.

(** X3. For any table the loop stops within as many rounds as the word
    has characters: fuel beyond that changes nothing, the residual it
    leaves has no candidate that could be stripped, and the suffixes found
    are at most as many as the characters they took from the word. *)
Theorem peel_loop_terminates :
  forall (table : list Morpheme) (sfo_word : str) (fuel : nat),
    length sfo_word < fuel ->
    peel_loop table fuel [] sfo_word
    = peel_loop table (S (length sfo_word)) [] sfo_word
    /\ scan table (snd (peel_loop table fuel [] sfo_word)) = None
    /\ length (fst (peel_loop table fuel [] sfo_word))
       + length (snd (peel_loop table fuel [] sfo_word))
       <= length sfo_word.
Proof.
  intros table sfo_word fuel L. split; [|split].
  - apply peel_loop_fuel; lia.
  - apply peel_loop_settles; exact L.
  - apply (peel_loop_count table fuel [] sfo_word).
Qed.

Lemma peel_loop_terminates_witness :
  length (py "tekekulqan") < 1000
  /\ peel_loop MORPHEMES 1000 [] (py "tekekulqan")
     = peel_loop MORPHEMES (S (length (py "tekekulqan"))) []
         (py "tekekulqan").
Proof.
  assert (length (py "tekekulqan") < 1000) as H by (vm_compute; lia).
  split; [exact H|].
  exact (proj1 (peel_loop_terminates MORPHEMES (py "tekekulqan") 1000 H)).
Defined.

(** X4. For any table and word, every morpheme returned after the first
    is an entry of the table of type "suffix". *)
Theorem segment_tail_suffixes :
  forall (table : list Morpheme) (sfo_word : str),
    Forall (fun m => In m table /\ type m = py "suffix")
      (tl (segment table sfo_word)).
Proof.
  intros table sfo_word. rewrite segment_unfold.
  pose proof (peel_loop_suffixes table (S (length sfo_word)) [] sfo_word
                (Forall_nil _)) as F.
  destruct (peel_loop table (S (length sfo_word)) [] sfo_word)
    as [peeled residual]. simpl in *.
  assert (Forall (fun m => In m table /\ type m = py "suffix") peeled) as G.
  { apply Forall_impl with (2 := F). intros m Hm.
    apply suffixes_of_In; exact Hm. }
  unfold attach_root.
  destruct (dict_get (index_of table) residual);
    [|destruct (truthy residual)]; simpl; try exact G.
  destruct peeled; simpl; [constructor|]. inversion G; assumption.
Qed.

(** X5. Splitting is stable on the residual: for any table, the result
    for a word is the result for the residual the loop leaves, followed by
    the suffixes found; nothing is stripped from the residual, and its
    result is one morpheme or none. *)
Theorem segment_residual_stable :
  forall (table : list Morpheme) (sfo_word : str),
    segment table sfo_word
    = segment table
        (snd (peel_loop table (S (length sfo_word)) [] sfo_word))
      ++ fst (peel_loop table (S (length sfo_word)) [] sfo_word)
    /\ peel_loop table
         (S (length (snd (peel_loop table (S (length sfo_word)) []
                            sfo_word))))
         [] (snd (peel_loop table (S (length sfo_word)) [] sfo_word))
       = ([], snd (peel_loop table (S (length sfo_word)) [] sfo_word))
    /\ length (segment table
                 (snd (peel_loop table (S (length sfo_word)) [] sfo_word)))
       <= 1.
Proof.
  intros table sfo_word.
  pose proof (peel_loop_settles table (S (length sfo_word)) [] sfo_word
                (Nat.lt_succ_diag_r _)) as Hs.
  set (residual := snd (peel_loop table (S (length sfo_word)) [] sfo_word))
    in *.
  pose proof (segment_no_peel table residual Hs) as Hp.
  assert (segment table residual = attach_root table [] residual) as Hr.
  { rewrite segment_unfold, Hp. reflexivity. }
  split; [|split].
  - rewrite Hr, (segment_unfold table sfo_word).
    apply (attach_root_acc table).
  - exact Hp.
  - rewrite Hr. apply (attach_root_acc table []).
Qed.

(** *** Explanations *)

Lemma to_dict_same (e : LexiconEntry) : to_dict e = e.
Proof.
  destruct e as [a b c d f g [ms|] h]; unfold to_dict; simpl;
    rewrite ?map_id; reflexivity.
Qed.

Lemma seed_split_spelling (sfo_word : str) :
  spelled (analyze_morphemes sfo_word) = sfo_word.
Proof.
  apply (segment_spelled MORPHEMES). exact MORPHEMES_forms_nonempty.
Qed.

(** X6. [explain_word] answers from the lexicon exactly when the word is
    a key of it, with the fields of the stored entry unchanged.  For any
    other word the answer is marked "analysis", repeats the word, and
    carries the morphemes of [analyze_morphemes], which spell the word and
    are at least one for a non-empty word, with a note that is not
    empty. *)
Theorem explain_word_lexicon_or_analysis :
  forall (LEXICON : dict LexiconEntry) (sfo_word : str),
    (forall e,
        lookup_word_in LEXICON sfo_word = Some e ->
        explain_word_in LEXICON sfo_word
        = {| source := py "lexicon"; entry := FromLexicon e |})
    /\ (lookup_word_in LEXICON sfo_word = None ->
        exists a,
          explain_word_in LEXICON sfo_word
          = {| source := py "analysis"; entry := FromAnalysis a |}
          /\ a_sfo a = sfo_word
          /\ a_morphemes a = analyze_morphemes sfo_word
          /\ spelled (a_morphemes a) = sfo_word
          /\ (sfo_word <> [] -> a_morphemes a <> [])
          /\ a_worldview_notes a <> []).
Proof.
  intros LEXICON sfo_word. unfold explain_word_in. split.
  - intros e ->. rewrite to_dict_same. reflexivity.
  - intros ->. eexists. split; [reflexivity|]. cbn [a_sfo a_morphemes
      a_worldview_notes]. rewrite map_id.
    split; [reflexivity|]. split; [reflexivity|].
    split; [apply seed_split_spelling|].
    split; [|vm_compute; discriminate].
    intros Hne C. apply (f_equal spelled) in C.
    rewrite seed_split_spelling in C. exact (Hne C).
Qed.

Lemma explain_word_lexicon_or_analysis_witness :
  (lookup_word_in LEXICON (py "Tekekulqan") <> None
   /\ source (explain_word (py "Tekekulqan")) = py "lexicon")
  /\ (lookup_word_in LEXICON (py "tekekulqan") = None
      /\ exists a,
           explain_word (py "tekekulqan")
           = {| source := py "analysis"; entry := FromAnalysis a |}
           /\ a_morphemes a <> []).
Proof.
  destruct (explain_word_lexicon_or_analysis LEXICON (py "Tekekulqan"))
    as [Hhit _].
  destruct (explain_word_lexicon_or_analysis LEXICON (py "tekekulqan"))
    as [_ Hmiss].
  split.
  - destruct (lookup_word_in LEXICON (py "Tekekulqan")) as [e|] eqn:L.
    + split; [discriminate|]. unfold explain_word.
      rewrite (Hhit e eq_refl). reflexivity.
    + vm_compute in L. discriminate.
  - assert (lookup_word_in LEXICON (py "tekekulqan") = None) as L
      by (vm_compute; reflexivity).
    split; [exact L|].
    destruct (Hmiss L) as (a & E & _ & _ & _ & N & _).
    exists a. split; [exact E|]. apply N. vm_compute. discriminate.
Defined.

(** *** Playful compounds *)

(** X7. A compound built with the default suffix ends in "aqan", and for
    a stub that is not empty [analyze_morphemes] splits it into the
    morphemes of the stub followed by the table entry "aqan". *)
Theorem build_humorous_compound_split :
  forall english_stub : str,
    endswith (build_humorous_compound_default english_stub) (py "aqan")
    = true
    /\ (english_stub <> [] ->
        analyze_morphemes (build_humorous_compound_default english_stub)
        = analyze_morphemes english_stub
          ++ [ mkMorpheme (py "aqan") (py "motion of arm/elbow, waving")
                 (py "suffix") (py "used in weenieraqn joke") ]).
Proof.
  intros stub.
  unfold build_humorous_compound_default, build_humorous_compound.
  split; [apply endswith_iff; exists stub; reflexivity|].
  intros Hne.
  set (aqan := mkMorpheme (py "aqan") (py "motion of arm/elbow, waving")
                 (py "suffix") (py "used in weenieraqn joke")).
  assert (exists rest, suffixes_of MORPHEMES = aqan :: rest) as [rest Hs]
    by (eexists; vm_compute; reflexivity).
  assert (peelable (stub ++ py "aqan") aqan = true) as Hp.
  { apply peelable_iff. cbn [form aqan]. split.
    - apply endswith_iff. exists stub. reflexivity.
    - intros C. apply Hne.
      apply (app_inv_tail (py "aqan") stub []). exact C. }
  assert (scan MORPHEMES (stub ++ py "aqan") = Some aqan) as Hscan.
  { unfold scan. rewrite Hs. cbn [find]. rewrite Hp. reflexivity. }
  assert (slice_drop_last (stub ++ py "aqan") (length (form aqan)) = stub)
    as Hslice.
  { apply (app_inv_tail (form aqan)).
    apply slice_drop_last_app.
    - apply endswith_iff. exists stub. reflexivity.
    - vm_compute. discriminate. }
  unfold analyze_morphemes.
  rewrite (segment_unfold MORPHEMES (stub ++ py "aqan")).
  rewrite (peel_loop_step MORPHEMES _ _ _ _ Hscan), Hslice.
  rewrite (peel_loop_acc MORPHEMES _ [aqan] stub).
  rewrite (peel_loop_fuel MORPHEMES (length (stub ++ py "aqan"))
             (S (length stub)) [] stub).
  - cbn [fst snd]. rewrite (segment_unfold MORPHEMES stub).
    destruct (attach_root_acc MORPHEMES
                (fst (peel_loop MORPHEMES (S (length stub)) [] stub)
                 ++ [aqan])
                (snd (peel_loop MORPHEMES (S (length stub)) [] stub)))
      as [-> _].
    destruct (attach_root_acc MORPHEMES
                (fst (peel_loop MORPHEMES (S (length stub)) [] stub))
                (snd (peel_loop MORPHEMES (S (length stub)) [] stub)))
      as [-> _].
    rewrite app_assoc. reflexivity.
  - rewrite length_app. assert (length (py "aqan") = 4) as -> by reflexivity.
    lia.
  - lia.
Qed.

Lemma build_humorous_compound_split_witness :
  py "weenie" <> []
  /\ build_humorous_compound_default (py "weenie") = py "weenieaqan"
  /\ analyze_morphemes (py "weenieaqan")
     = analyze_morphemes (py "weenie")
       ++ [ mkMorpheme (py "aqan") (py "motion of arm/elbow, waving")
              (py "suffix") (py "used in weenieraqn joke") ].
Proof.
  assert (py "weenie" <> []) as H by (vm_compute; discriminate).
  split; [exact H|]. split; [vm_compute; reflexivity|].
  exact (proj2 (build_humorous_compound_split (py "weenie")) H).
Defined.

End LnuBridgeMore.

(* ================================================================== *)
(** ** More on translator.py *)
(* ================================================================== *)

Module TranslatorMore.
Import PyStr PyDict Translator.
Import PyStrFacts PyDictFacts PyStrMore TranslatorFacts.

(** *** Heuristics *)

Lemma animate_not_inanimate : py "animate" <> py "inanimate".
Proof. vm_compute. discriminate. Qed.

(** X8. [guess_animacy] answers "animate", "inanimate" or nothing.  It
    answers nothing exactly when the lowered word holds none of the four
    hint fragments and does not end in "jik", and "inanimate" exactly when
    the lowered word holds "weskaq" and none of the three fragments listed
    before it. *)
Theorem guess_animacy_cases :
  forall (CF : CaseFold) (word : str),
    (guess_animacy word = None <->
     existsb (fun fa => contains (fst fa) (lower word)) ANIMACY_HINTS
     = false
     /\ endswith (lower word) (py "jik") = false)
    /\ (forall a, guess_animacy word = Some a ->
                  a = py "animate" \/ a = py "inanimate")
    /\ (guess_animacy word = Some (py "inanimate") <->
        contains (py "weskaq") (lower word) = true
        /\ contains (py "nme'") (lower word) = false
        /\ contains (py "kataq") (lower word) = false
        /\ contains (py "waisik") (lower word) = false).
Proof.
  intros CF word. unfold guess_animacy, ANIMACY_HINTS.
  cbn [find existsb fst snd].
  pose proof animate_not_inanimate as NE.
  destruct (contains (py "nme'") (lower word));
    destruct (contains (py "kataq") (lower word));
    destruct (contains (py "waisik") (lower word));
    destruct (contains (py "weskaq") (lower word));
    destruct (endswith (lower word) (py "jik"));
    destruct (endswith (lower word) (py "l") || endswith (lower word) (py "k"));
    cbn [orb];
    (split; [split; [intros H; try discriminate; auto
                    |intros [H1 H2]; try discriminate; auto]|]);
    (split; [intros a H; try discriminate; injection H as <-; auto|]);
    (split; [intros H; try discriminate;
             try (injection H as H; contradiction);
             auto
            |intros (H1 & H2 & H3 & H4); try discriminate; auto]).
Qed.

Lemma guess_animacy_cases_witness :
  (contains (py "weskaq") (lower (py "Weskaqjik")) = true
   /\ contains (py "nme'") (lower (py "Weskaqjik")) = false
   /\ contains (py "kataq") (lower (py "Weskaqjik")) = false
   /\ contains (py "waisik") (lower (py "Weskaqjik")) = false)
  /\ guess_animacy (py "Weskaqjik") = Some (py "inanimate").
Proof.
  assert (contains (py "weskaq") (lower (py "Weskaqjik")) = true
          /\ contains (py "nme'") (lower (py "Weskaqjik")) = false
          /\ contains (py "kataq") (lower (py "Weskaqjik")) = false
          /\ contains (py "waisik") (lower (py "Weskaqjik")) = false) as H
    by (repeat split; vm_compute; reflexivity).
  split; [exact H|].
  destruct (guess_animacy_cases ascii_case (py "Weskaqjik")) as (_ & _ & G).
  exact (proj2 G H).
Defined.

Lemma NoDup_map_filter {A B : Type} (g : A -> B) (f : A -> bool)
    (l : list A) :
  NoDup (map g l) -> NoDup (map g (filter f l)).
Proof.
  induction l as [|x l IH]; simpl; [auto|].
  intros H. apply NoDup_cons_iff in H as [H1 H2].
  destruct (f x); simpl; [|auto].
  constructor; [|auto]. intros C. apply H1.
  apply in_map_iff in C as (y & E & Hy). apply filter_In in Hy as [Hy _].
  apply in_map_iff. eauto.
Qed.

Lemma WORLDVIEW_HINTS_notes_distinct : NoDup (map snd WORLDVIEW_HINTS).
Proof.
  vm_compute.
  repeat (constructor; [simpl; intuition discriminate|]). constructor.
Qed.

(** X9. [collect_worldview_notes] returns the note of a hint exactly when
    the lowered word holds the fragment of the hint; no note comes twice,
    there are at most five, and there is none exactly when the lowered word
    holds no fragment. *)
Theorem collect_worldview_notes_exact :
  forall (CF : CaseFold) (word : str),
    (forall note,
        In note (collect_worldview_notes word) <->
        exists frag, In (frag, note) WORLDVIEW_HINTS
                     /\ contains frag (lower word) = true)
    /\ NoDup (collect_worldview_notes word)
    /\ length (collect_worldview_notes word) <= 5
    /\ (collect_worldview_notes word = [] <->
        existsb (fun fn => contains (fst fn) (lower word)) WORLDVIEW_HINTS
        = false).
Proof.
  intros CF word. unfold collect_worldview_notes.
  split; [|split; [|split]].
  - intros note. rewrite in_map_iff. split.
    + intros ([frag n] & E & H). simpl in E. subst n.
      apply filter_In in H as [H1 H2]. exists frag. auto.
    + intros (frag & H1 & H2). exists (frag, note).
      split; [reflexivity|]. apply filter_In. auto.
  - apply NoDup_map_filter. exact WORLDVIEW_HINTS_notes_distinct.
  - rewrite length_map.
    etransitivity; [apply filter_length_le|]. reflexivity.
  - generalize WORLDVIEW_HINTS. intros l.
    induction l as [|fn l IH]; simpl; [tauto|].
    destruct (contains (fst fn) (lower word)); simpl.
    + split; discriminate.
    + exact IH.
Qed.

Lemma collect_worldview_notes_exact_witness :
  In (py "msit", py "Msit No'kmaq – all is related.") WORLDVIEW_HINTS
  /\ contains (py "msit") (lower (py "Msit")) = true
  /\ In (py "Msit No'kmaq – all is related.")
       (collect_worldview_notes (py "Msit")).
Proof.
  assert (In (py "msit", py "Msit No'kmaq – all is related.")
            WORLDVIEW_HINTS) as H1 by (left; reflexivity).
  assert (contains (py "msit") (lower (py "Msit")) = true) as H2
    by (vm_compute; reflexivity).
  split; [exact H1|]. split; [exact H2|].
  destruct (collect_worldview_notes_exact ascii_case (py "Msit"))
    as [G _].
  apply G. exists (py "msit"). split; [exact H1 | exact H2].
Defined.

(** *** Lookup *)

Lemma analyze_word_entry {CF : CaseFold} (self : LnuTranslator)
    (word : str) :
  entry (analyze_word self word) = lookup self word.
Proof.
  destruct (lookup self word) as [e|] eqn:L.
  - apply (analyze_word_hit self word e L).
  - apply (analyze_word_miss self word L).
Qed.

(** X10. Whitespace around a query changes neither the entry that
    [lookup] finds nor the entry of the analysis; the analysis repeats the
    query as it was given. *)
Theorem lookup_ignores_outer_whitespace :
  forall (CF : CaseFold) (self : LnuTranslator) (pre word post : str),
    blank pre = true -> blank post = true ->
    lookup self (pre ++ word ++ post) = lookup self word
    /\ entry (analyze_word self (pre ++ word ++ post))
       = entry (analyze_word self word)
    /\ Translator.word (analyze_word self (pre ++ word ++ post))
       = pre ++ word ++ post.
Proof.
  intros CF self pre word post Hpre Hpost.
  assert (lookup self (pre ++ word ++ post) = lookup self word) as L.
  { unfold lookup. rewrite (strip_surround pre word post Hpre Hpost).
    reflexivity. }
  split; [exact L|]. split.
  - rewrite !analyze_word_entry. exact L.
  - apply analyze_word_word.
Qed.

Lemma lookup_ignores_outer_whitespace_witness :
  blank (py " ") = true /\ blank (py "  ") = true
  /\ lookup (init None) (py " " ++ py "Tekek" ++ py "  ")
     = lookup (init None) (py "Tekek").
Proof.
  assert (blank (py " ") = true) as H1 by (vm_compute; reflexivity).
  assert (blank (py "  ") = true) as H2 by (vm_compute; reflexivity).
  split; [exact H1|]. split; [exact H2|].
  exact (proj1 (lookup_ignores_outer_whitespace ascii_case (init None)
                  (py " ") (py "Tekek") (py "  ") H1 H2)).
Defined.

(** *** Guessed morphemes *)

(** X11. A word with no entry that ends in "jik" is guessed as a stem and
    the suffix "-jik"; the stem is the word without its last three
    characters, so stem and "jik" spell the word. *)
Theorem analyze_word_jik_guess :
  forall (CF : CaseFold) (self : LnuTranslator) (word : str),
    lookup self word = None ->
    endswith word (py "jik") = true ->
    guessed_morphemes (analyze_word self word)
    = [ Morpheme3 (slice_drop_last word 3) (py "possible animate root")
          (py "root");
        Morpheme3 (py "-jik") (py "animate plural") (py "suffix") ]
    /\ slice_drop_last word 3 ++ py "jik" = word.
Proof.
  intros CF self word L J.
  destruct (analyze_word_miss self word L) as (_ & G & _).
  rewrite (pattern_guess_jik word _ J) in G. cbn [fst] in G.
  split; [exact G|].
  change 3 with (length (py "jik")).
  apply slice_drop_last_app; [exact J | vm_compute; discriminate].
Qed.

Lemma analyze_word_jik_guess_witness :
  lookup (init None) (py "sipujik") = None
  /\ endswith (py "sipujik") (py "jik") = true
  /\ slice_drop_last (py "sipujik") 3 ++ py "jik" = py "sipujik".
Proof.
  assert (lookup (init None) (py "sipujik") = None) as L
    by (vm_compute; reflexivity).
  assert (endswith (py "sipujik") (py "jik") = true) as J
    by (vm_compute; reflexivity).
  split; [exact L|]. split; [exact J|].
  exact (proj2 (analyze_word_jik_guess ascii_case (init None)
                  (py "sipujik") L J)).
Defined.

(** X12. A word with no entry that does not end in "jik" and has an
    apostrophe and a non-empty piece between apostrophes is guessed as its
    non-empty pieces, in order: no guessed morpheme is empty or holds an
    apostrophe, all have the role "unknown", and together they spell the
    word without its apostrophes. *)
Theorem analyze_word_apostrophe_guess :
  forall (CF : CaseFold) (self : LnuTranslator) (word : str),
    lookup self word = None ->
    endswith word (py "jik") = false ->
    contains [APOSTROPHE] word = true ->
    existsb truthy (split_on APOSTROPHE word) = true ->
    map surface (guessed_morphemes (analyze_word self word))
    = filter truthy (split_on APOSTROPHE word)
    /\ Forall (fun m => surface m <> [] /\ ~ In APOSTROPHE (surface m)
                        /\ role m = py "unknown")
         (guessed_morphemes (analyze_word self word))
    /\ concat (map surface (guessed_morphemes (analyze_word self word)))
       = filter (fun c => negb (c =? APOSTROPHE)%N) word.
Proof.
  intros CF self word L J A P.
  destruct (analyze_word_miss self word L) as (_ & G & _).
  rewrite (pattern_guess_apostrophe word _ J A) in G. cbn [fst] in G.
  destruct (filter_truthy_cons _ P) as (p & ps & E).
  assert (guessed_morphemes (analyze_word self word)
          = map (fun p => Morpheme3 p (py "possible morpheme")
                            (py "unknown"))
              (filter truthy (split_on APOSTROPHE word))) as G'.
  { rewrite G, E. reflexivity. }
  clear G E. rewrite G'.
  assert (map surface
            (map (fun p => Morpheme3 p (py "possible morpheme")
                             (py "unknown"))
               (filter truthy (split_on APOSTROPHE word)))
          = filter truthy (split_on APOSTROPHE word)) as M.
  { rewrite map_map. apply map_id. }
  split; [exact M|]. split.
  - apply Forall_map. apply Forall_forall. intros q Hq.
    apply filter_In in Hq as [Hq T]. cbn [surface role Morpheme3].
    split; [destruct q; [discriminate | congruence]|].
    split; [|reflexivity].
    pose proof (split_on_from_clean APOSTROPHE [] word (fun H => H)) as C.
    rewrite Forall_forall in C. exact (C q Hq).
  - rewrite M, concat_filter_truthy.
    apply (concat_split_on_from APOSTROPHE [] word).
Qed.

Lemma analyze_word_apostrophe_guess_witness :
  lookup (init None) (py "wela'lin") = None
  /\ endswith (py "wela'lin") (py "jik") = false
  /\ contains [APOSTROPHE] (py "wela'lin") = true
  /\ existsb truthy (split_on APOSTROPHE (py "wela'lin")) = true
  /\ map surface (guessed_morphemes (analyze_word (init None)
                                       (py "wela'lin")))
     = filter truthy (split_on APOSTROPHE (py "wela'lin")).
Proof.
  assert (lookup (init None) (py "wela'lin") = None) as L
    by (vm_compute; reflexivity).
  assert (endswith (py "wela'lin") (py "jik") = false) as J
    by (vm_compute; reflexivity).
  assert (contains [APOSTROPHE] (py "wela'lin") = true) as A
    by (vm_compute; reflexivity).
  assert (existsb truthy (split_on APOSTROPHE (py "wela'lin")) = true)
    as P by (vm_compute; reflexivity).
  repeat (split; [assumption|]).
  exact (proj1 (analyze_word_apostrophe_guess ascii_case (init None)
                  (py "wela'lin") L J A P)).
Defined.

(** *** Sentences *)

Lemma cut_empty_iff (cur s : str) :
  filter truthy (cut_at_separators cur s) = []
  <-> cur = [] /\ forallb is_separator s = true.
Proof.
  revert cur. induction s as [|c s IH]; intros cur.
  - destruct cur as [|x cur]; [simpl; tauto|].
    cbn [cut_at_separators forallb]. rewrite filter_truthy_rev_cons.
    split; [discriminate | intros [C _]; discriminate].
  - cbn [cut_at_separators forallb]. destruct (is_separator c) eqn:E.
    + destruct cur as [|x cur].
      * cbn [rev filter truthy andb]. rewrite IH. tauto.
      * rewrite filter_truthy_rev_cons.
        split; [discriminate | intros [C _]; discriminate].
    + rewrite IH. cbn [andb].
      split; [intros [C _]; discriminate | intros [_ C]; discriminate].
Qed.

Lemma cut_app_clean (cur t s : str) :
  Forall (fun c => is_separator c = false) t ->
  cut_at_separators cur (t ++ s) = cut_at_separators (rev t ++ cur) s.
Proof.
  revert cur. induction t as [|x t IH]; intros cur H; [reflexivity|].
  inversion H as [|? ? Hx Ht]; subst.
  cbn [app cut_at_separators]. rewrite Hx, (IH _ Ht).
  cbn [rev]. rewrite <- app_assoc. reflexivity.
Qed.

Lemma tokenize_join (toks : list str) :
  Forall (fun t => t <> [] /\ Forall (fun c => is_separator c = false) t)
    toks ->
  tokenize (join [SPACE] toks) = toks.
Proof.
  rewrite tokenize_spec_eq. unfold tokenize_spec.
  induction toks as [|p rest IH]; intros H; [reflexivity|].
  inversion H as [|? ? [Hp Cp] Hrest]; subst.
  destruct rest as [|q r].
  - cbn [join]. rewrite <- (app_nil_r p) at 1.
    rewrite (cut_app_clean [] p [] Cp). cbn [cut_at_separators].
    rewrite app_nil_r, rev_involutive.
    destruct p; [congruence | reflexivity].
  - rewrite join_cons by discriminate.
    rewrite (cut_app_clean [] p _ Cp).
    cbn [app cut_at_separators].
    assert (is_separator SPACE = true) as -> by reflexivity.
    rewrite app_nil_r, rev_involutive.
    destruct p as [|x p]; [congruence|].
    cbn [filter truthy]. f_equal. apply IH. exact Hrest.
Qed.

Lemma tokenize_tokens_clean (sentence : str) :
  Forall (fun t => t <> [] /\ Forall (fun c => is_separator c = false) t)
    (tokenize sentence).
Proof.
  rewrite tokenize_spec_eq. unfold tokenize_spec.
  apply Forall_forall. intros tok H. apply filter_In in H as [H T].
  split; [destruct tok; [discriminate | congruence]|].
  pose proof (cut_at_separators_clean [] sentence (Forall_nil _)) as C.
  rewrite Forall_forall in C. exact (C tok H).
Qed.

(** X13. [analyze_sentence] returns no token and no analysis exactly
    when every character of the sentence is whitespace or a comma (the
    empty sentence among them). *)
Theorem analyze_sentence_empty_iff :
  forall (CF : CaseFold) (self : LnuTranslator) (sentence : str),
    (tokens (analyze_sentence self sentence) = []
     <-> forallb is_separator sentence = true)
    /\ (analyses (analyze_sentence self sentence) = []
        <-> forallb is_separator sentence = true).
Proof.
  intros CF self sentence.
  assert (tokenize sentence = []
          <-> forallb is_separator sentence = true) as T.
  { rewrite tokenize_spec_eq. unfold tokenize_spec.
    rewrite cut_empty_iff. tauto. }
  unfold analyze_sentence; cbn [tokens analyses]. split; [exact T|].
  rewrite <- T. split.
  - intros H. apply map_eq_nil in H. exact H.
  - intros ->. reflexivity.
Qed.

Lemma analyze_sentence_empty_iff_witness :
  forallb is_separator (py " , ,  ") = true
  /\ tokens (analyze_sentence (init None) (py " , ,  ")) = [].
Proof.
  assert (forallb is_separator (py " , ,  ") = true) as H
    by (vm_compute; reflexivity).
  split; [exact H|].
  exact (proj2 (proj1 (analyze_sentence_empty_iff ascii_case (init None)
                         (py " , ,  "))) H).
Defined.

(** X14. Tokens survive a round trip: the tokens of a sentence, joined
    with single spaces, are tokenized into the same tokens and analysed
    into the same analyses; and any list of non-empty words free of
    whitespace and commas comes back from its join. *)
Theorem analyze_sentence_join_round_trip :
  forall (CF : CaseFold) (self : LnuTranslator) (sentence : str),
    tokens (analyze_sentence self
              (join [SPACE] (tokens (analyze_sentence self sentence))))
    = tokens (analyze_sentence self sentence)
    /\ analyses (analyze_sentence self
                   (join [SPACE] (tokens (analyze_sentence self sentence))))
       = analyses (analyze_sentence self sentence)
    /\ (forall toks,
           Forall (fun t => t <> []
                            /\ Forall (fun c => is_separator c = false) t)
             toks ->
           tokens (analyze_sentence self (join [SPACE] toks)) = toks).
Proof.
  intros CF self sentence.
  unfold analyze_sentence; cbn [tokens analyses].
  rewrite (tokenize_join _ (tokenize_tokens_clean sentence)).
  split; [reflexivity|]. split; [reflexivity|].
  intros toks H. apply tokenize_join; exact H.
Qed.

Lemma analyze_sentence_join_round_trip_witness :
  Forall (fun t => t <> [] /\ Forall (fun c => is_separator c = false) t)
    [py "Kwe'"; py "teluisi"]
  /\ tokens (analyze_sentence (init None)
               (join [SPACE] [py "Kwe'"; py "teluisi"]))
     = [py "Kwe'"; py "teluisi"].
Proof.
  assert (Forall (fun t => t <> []
                           /\ Forall (fun c => is_separator c = false) t)
            [py "Kwe'"; py "teluisi"]) as H.
  { repeat constructor; try (vm_compute; discriminate). }
  split; [exact H|].
  exact (proj2 (proj2 (analyze_sentence_join_round_trip ascii_case
                         (init None) [])) _ H).
Defined.

(** *** API wrappers *)

(** X15. The dictionary of [explain_word_for_api] repeats the query, has
    ["has_entry"] true exactly when the lexicon holds the word up to case
    and outer whitespace, carries the entry that [lookup] finds, and has
    guessed morphemes exactly when it has no entry. *)
Theorem explain_word_for_api_has_entry :
  forall (CF : CaseFold) (self : LnuTranslator) (word : str),
    d_word (explain_word_for_api self word) = word
    /\ d_has_entry (explain_word_for_api self word) = in_store self word
    /\ d_entry (explain_word_for_api self word) = lookup self word
    /\ (d_guessed_morphemes (explain_word_for_api self word) = []
        <-> d_has_entry (explain_word_for_api self word) = true).
Proof.
  intros CF self word. unfold explain_word_for_api, to_dict.
  cbn [d_word d_has_entry d_entry d_guessed_morphemes].
  rewrite analyze_word_word, analyze_word_entry.
  split; [reflexivity|].
  destruct (lookup self word) as [e|] eqn:L.
  - assert (in_store self word = true) as I.
    { destruct (in_store self word) eqn:I; [reflexivity|].
      apply lookup_None_iff in I. congruence. }
    rewrite I. split; [reflexivity|]. split; [reflexivity|].
    destruct (analyze_word_hit self word e L) as (_ & _ & G & _).
    rewrite G. tauto.
  - pose proof (proj1 (lookup_None_iff self word) L) as I. rewrite I.
    split; [reflexivity|]. split; [reflexivity|].
    destruct (analyze_word_miss self word L) as (_ & G & _). rewrite G.
    destruct (fst (pattern_guess word (collect_worldview_notes word)));
      split; discriminate.
Qed.

Lemma explain_word_for_api_has_entry_witness :
  d_has_entry (explain_word_for_api (init None) (py " TEKEK ")) = true
  /\ d_guessed_morphemes (explain_word_for_api (init None) (py " TEKEK "))
     = [].
Proof.
  assert (d_has_entry (explain_word_for_api (init None) (py " TEKEK "))
          = true) as H by (vm_compute; reflexivity).
  split; [exact H|].
  destruct (explain_word_for_api_has_entry ascii_case (init None)
              (py " TEKEK ")) as (_ & _ & _ & G).
  exact (proj2 G H).
Defined.

Lemma candidate_to_dict_same (c : GenerationCandidate) :
  candidate_to_dict c = c.
Proof.
  destruct c. unfold candidate_to_dict. simpl. rewrite map_id.
  reflexivity.
Qed.

(** X16. [generate_modern_term] reads the concept and the purpose only:
    requests that differ in their domain tags get the same candidates.
    The candidates are the refrigerator candidate followed by the generic
    one when the refrigerator pattern matches, and the generic one alone
    when it does not; the two candidates differ. *)
Theorem generate_modern_term_shape :
  forall (CF : CaseFold) (concept purpose : str) (tags tags' : list str),
    generate_modern_term (mkGenerationRequest concept purpose tags)
    = generate_modern_term (mkGenerationRequest concept purpose tags')
    /\ generate_modern_term (mkGenerationRequest concept purpose tags)
       = (if refrigerator_pattern
               (mkGenerationRequest concept purpose tags)
          then [refrigerator_candidate; generic_candidate]
          else [generic_candidate])
    /\ 1 <= length (generate_modern_term
                      (mkGenerationRequest concept purpose tags)) <= 2
    /\ cand_word refrigerator_candidate <> cand_word generic_candidate.
Proof.
  intros CF concept purpose tags tags'.
  unfold generate_modern_term, refrigerator_pattern.
  cbn [Translator.concept Translator.purpose].
  split; [reflexivity|].
  destruct (contains (py "refrigerator") (lower concept)
            || contains (py "cold") (lower purpose)
               && contains (py "food") (lower purpose));
    cbn [app length]; repeat split; try lia;
    vm_compute; discriminate.
Qed.

(** X17. [generate_term_for_api] never returns an empty candidate list:
    the candidates are those of [generate_modern_term] for the concept and
    purpose of the payload, a missing key read as the empty string, and the
    concept is repeated in the answer.  A payload with neither concept nor
    purpose gets the generic candidate alone. *)
Theorem generate_term_for_api_defaults :
  forall (CF : CaseFold) (payload : Payload),
    r_candidates (generate_term_for_api payload) <> []
    /\ r_concept (generate_term_for_api payload)
       = match p_concept payload with Some c => c | None => [] end
    /\ r_candidates (generate_term_for_api payload)
       = generate_modern_term
           (mkGenerationRequest
              (match p_concept payload with Some c => c | None => [] end)
              (match p_purpose payload with Some c => c | None => [] end)
              [])
    /\ (p_concept payload = None -> p_purpose payload = None ->
        generate_term_for_api payload
        = {| r_concept := []; r_candidates := [generic_candidate] |}).
Proof.
  intros CF payload. unfold generate_term_for_api.
  cbn [r_candidates r_concept Translator.concept].
  assert (forall l, map candidate_to_dict l = l) as M.
  { intros l. rewrite <- (map_id l) at 2. apply map_ext.
    apply candidate_to_dict_same. }
  rewrite M.
  assert (forall c u t,
             generate_modern_term (mkGenerationRequest c u t)
             = generate_modern_term (mkGenerationRequest c u [])) as T.
  { intros c u t. reflexivity. }
  split.
  { unfold generate_modern_term.
    destruct (refrigerator_pattern _); discriminate. }
  split; [reflexivity|]. split; [apply T|].
  intros -> ->. f_equal.
  unfold generate_modern_term, refrigerator_pattern.
  cbn [Translator.concept Translator.purpose].
  rewrite (proj2 (lower_empty []) eq_refl). reflexivity.
Qed.

Lemma generate_term_for_api_defaults_witness :
  p_concept (mkPayload None None None) = None
  /\ p_purpose (mkPayload None None None) = None
  /\ generate_term_for_api (mkPayload None None None)
     = {| r_concept := []; r_candidates := [generic_candidate] |}.
Proof.
  split; [reflexivity|]. split; [reflexivity|].
  exact (proj2 (proj2 (proj2 (generate_term_for_api_defaults ascii_case
                                (mkPayload None None None))))
           eq_refl eq_refl).
Defined.

(** *** Construction *)

(** X18. A translator never has an empty lexicon: built without a
    lexicon or with an empty one it has the seed lexicon, and built with a
    non-empty one it has that one.  With the seed lexicon every key is the
    headword of its entry. *)
Theorem init_lexicon_never_empty :
  forall lexicon : option (dict WordEntry),
    Translator.lexicon (init lexicon) <> []
    /\ init (Some []) = init None
    /\ Translator.lexicon (init None) = LEXICON_CORE
    /\ (lexicon <> None -> lexicon <> Some [] ->
        Some (Translator.lexicon (init lexicon)) = lexicon)
    /\ Forall (fun kv => headword (snd kv) = fst kv) LEXICON_CORE.
Proof.
  intros lexicon. split; [|split; [|split; [|split]]].
  - destruct lexicon as [[|kv d]|]; simpl; try discriminate;
      vm_compute; discriminate.
  - reflexivity.
  - reflexivity.
  - destruct lexicon as [[|kv d]|]; intros H1 H2;
      [ exfalso; apply H2; reflexivity
      | reflexivity
      | exfalso; apply H1; reflexivity ].
  - vm_compute. repeat constructor.
Qed.

Lemma init_lexicon_never_empty_witness :
  Some [(py "kwe'", entry_tekek)] <> None
  /\ Some [(py "kwe'", entry_tekek)] <> Some []
  /\ Some (Translator.lexicon (init (Some [(py "kwe'", entry_tekek)])))
     = Some [(py "kwe'", entry_tekek)].
Proof.
  assert (Some [(py "kwe'", entry_tekek)] <> @None (dict WordEntry)) as H1
    by discriminate.
  assert (Some [(py "kwe'", entry_tekek)] <> Some []) as H2
    by discriminate.
  split; [exact H1|]. split; [exact H2|].
  destruct (init_lexicon_never_empty (Some [(py "kwe'", entry_tekek)]))
    as (_ & _ & _ & G & _).
  exact (G H1 H2).
Defined.

End TranslatorMore.


(* ================================================================== *)
(** ** my-lnui-translator/translator.py *)
(* ================================================================== *)

Module HomeTranslatorFacts.
Import PyStr PyDict HomeTranslator.
Import PyStrFacts PyStrMore.

Lemma startswith_refl (s : str) : startswith s s = true.
Proof.
  induction s as [|c s IH]; simpl; [reflexivity|].
  rewrite N.eqb_refl. exact IH.
Qed.

Lemma contains_refl (s : str) : contains s s = true.
Proof.
  destruct s; simpl; [reflexivity|].
  rewrite N.eqb_refl, startswith_refl. reflexivity.
Qed.

Lemma truthy_iff (s : str) : truthy s = true <-> s <> [].
Proof. destruct s; simpl; split; congruence. Qed.

Section Facts.
Context {CF : CaseFold}.
Variable home : HomeContext.

Lemma matches_mikmaw_inv (f : str) (w : MiKmawWord) :
  f <> [] ->
  matches_mikmaw f w = true ->
  exists d o,
    dict_get (dialects w) (py "general") = Some d
    /\ (sf_orthography d = Some o \/ listuguj_orthography d = Some o)
    /\ o <> [] /\ lower o = f.
Proof.
  intros Hf. unfold matches_mikmaw.
  destruct (dict_get (dialects w) (py "general")) as [d|]; [|discriminate].
  assert (forall x : option str,
             str_eqb (lower (or_empty x)) f = true ->
             exists o, x = Some o /\ o <> [] /\ lower o = f) as G.
  { intros x E. apply str_eqb_eq in E.
    destruct x as [[|c o]|]; simpl in E.
    - rewrite (proj2 (lower_empty []) eq_refl) in E. congruence.
    - exists (c :: o). repeat split; [discriminate | exact E].
    - rewrite (proj2 (lower_empty []) eq_refl) in E. congruence. }
  intros H. apply orb_true_iff in H as [H | H];
    apply G in H as (o & E & N & L); exists d, o; auto.
Qed.

Lemma find_values_In {V : Type} (P : V -> bool) (d : dict V) (v : V) :
  find P (map snd d) = Some v -> exists k, In (k, v) d /\ P v = true.
Proof.
  intros H. apply find_some in H as [H1 H2].
  apply in_map_iff in H1 as ([k v'] & E & Hin). simpl in E. subst v'.
  eauto.
Qed.

Lemma translate_blank (q input_type : str) :
  blank q = true -> translate home q input_type = Return None.
Proof.
  intros H. unfold translate. rewrite (strip_blank q H). reflexivity.
Qed.

Lemma translate_mikmaw_found (q : str) (w : MiKmawWord) :
  truthy (strip q) = true ->
  _find_by_mikmaw home q = Some w ->
  exists d,
    dict_get (dialects w) (py "general") = Some d
    /\ forall input_type,
         str_eqb input_type (py "english") = false ->
         translate home q input_type
         = Return
             (Some {| t_english := english w;
                      t_sf_orthography := sf_orthography d;
                      t_listuguj_orthography := listuguj_orthography d;
                      t_context := context d;
                      t_two_eyed_seeing := two_eyed_seeing d;
                      t_sources := sources d |}).
Proof.
  intros T F. pose proof F as F'. unfold _find_by_mikmaw in F'.
  apply find_some in F' as [_ M]. unfold matches_mikmaw in M.
  destruct (dict_get (dialects w) (py "general")) as [d|] eqn:D;
    [|discriminate].
  exists d. split; [reflexivity|]. intros input_type E.
  unfold translate. rewrite T, E, F. cbn [negb].
  destruct (str_eqb input_type (py "mikmaw")); rewrite D; reflexivity.
Qed.

End Facts.

(** X19. A query that is empty or all whitespace is answered with [None]
    before any search, whatever the input type; a query that [translate]
    answers with a word is therefore never blank. *)
Theorem translate_blank_query :
  forall (CF : CaseFold) (home : HomeContext) (q input_type : str),
    (blank q = true -> translate home q input_type = Return None)
    /\ (forall t, translate home q input_type = Return (Some t) ->
                  strip q <> []).
Proof.
  intros CF home q input_type. split.
  - apply translate_blank.
  - intros t H E. unfold translate in H. rewrite E in H.
    simpl in H. discriminate.
Qed.

Lemma translate_blank_query_witness :
  blank (py "   ") = true
  /\ translate example_home (py "   ") (py "english") = Return None.
Proof.
  assert (blank (py "   ") = true) as H by (vm_compute; reflexivity).
  split; [exact H|].
  exact (proj1 (translate_blank_query ascii_case example_home (py "   ")
                  (py "english")) H).
Defined.

(** X20. A Mi'kmaw search never raises.  When it answers with a word,
    the word is one of the context that has a "general" dialect, one of the
    two spellings of that dialect is set, is not empty and equals the
    trimmed query up to case, and the answer carries the fields of the word
    and of that dialect. *)
Theorem translate_mikmaw_sound :
  forall (CF : CaseFold) (home : HomeContext) (q : str),
    (forall key, translate home q (py "mikmaw") <> KeyError key)
    /\ (forall t,
           translate home q (py "mikmaw") = Return (Some t) ->
           exists key w d o,
             In (key, w) (mi_kmaw_words home)
             /\ dict_get (dialects w) (py "general") = Some d
             /\ (sf_orthography d = Some o
                 \/ listuguj_orthography d = Some o)
             /\ o <> [] /\ lower o = lower (strip q)
             /\ t = {| t_english := english w;
                       t_sf_orthography := sf_orthography d;
                       t_listuguj_orthography := listuguj_orthography d;
                       t_context := context d;
                       t_two_eyed_seeing := two_eyed_seeing d;
                       t_sources := sources d |}).
Proof.
  intros CF home q.
  destruct (truthy (strip q)) eqn:T.
  2:{ assert (translate home q (py "mikmaw") = Return None) as E
        by (unfold translate; rewrite T; reflexivity).
      rewrite E. split; [discriminate | discriminate]. }
  destruct (_find_by_mikmaw home q) as [w|] eqn:F.
  - destruct (translate_mikmaw_found home q w T F) as (d & D & E).
    rewrite (E (py "mikmaw") eq_refl).
    split; [discriminate|]. intros t [= <-].
    unfold _find_by_mikmaw in F.
    apply find_values_In in F as (key & Hin & M).
    assert (lower (strip q) <> []) as Hf.
    { intros C. apply (proj1 (lower_empty (strip q))) in C.
      apply truthy_iff in T. exact (T C). }
    destruct (matches_mikmaw_inv _ w Hf M) as (d' & o & D' & O & N & L).
    rewrite D in D'. injection D' as <-.
    exists key, w, d, o. auto 10.
  - assert (translate home q (py "mikmaw") = Return None) as E.
    { unfold translate. rewrite T, str_eqb_refl, F. reflexivity. }
    rewrite E. split; discriminate.
Qed.

Lemma translate_mikmaw_sound_witness :
  translate example_home (py " kesik ") (py "mikmaw")
  = Return (Some {| t_english := py "Winter";
                    t_sf_orthography := Some (py "Kesik");
                    t_listuguj_orthography := None;
                    t_context := py "season";
                    t_two_eyed_seeing := py "cold time";
                    t_sources := [py "elders"] |})
  /\ exists key w d o,
       In (key, w) (mi_kmaw_words example_home)
       /\ dict_get (dialects w) (py "general") = Some d
       /\ (sf_orthography d = Some o \/ listuguj_orthography d = Some o)
       /\ o <> [] /\ lower o = lower (strip (py " kesik ")).
Proof.
  assert (translate example_home (py " kesik ") (py "mikmaw")
          = Return (Some {| t_english := py "Winter";
                            t_sf_orthography := Some (py "Kesik");
                            t_listuguj_orthography := None;
                            t_context := py "season";
                            t_two_eyed_seeing := py "cold time";
                            t_sources := [py "elders"] |})) as E
    by (vm_compute; reflexivity).
  split; [exact E|].
  destruct (proj2 (translate_mikmaw_sound ascii_case example_home
                     (py " kesik ")) _ E)
    as (key & w & d & o & H1 & H2 & H3 & H4 & H5 & _).
  exists key, w, d, o. auto.
Defined.

Lemma english_not_mikmaw : str_eqb (py "english") (py "mikmaw") = false.
Proof. vm_compute. reflexivity. Qed.

(** X21. With an input type other than "mikmaw" and "english" (such as
    "auto"), [translate] gives the answer of the Mi'kmaw search when that
    search finds a word, and the outcome of the English search
    otherwise. *)
Theorem translate_auto_prefers_mikmaw :
  forall (CF : CaseFold) (home : HomeContext) (q input_type : str),
    str_eqb input_type (py "mikmaw") = false ->
    str_eqb input_type (py "english") = false ->
    translate home q input_type
    = match translate home q (py "mikmaw") with
      | Return (Some t) => Return (Some t)
      | Return None | KeyError _ => translate home q (py "english")
      end.
Proof.
  intros CF home q input_type H1 H2.
  destruct (truthy (strip q)) eqn:T.
  2:{ unfold translate. rewrite T. reflexivity. }
  destruct (_find_by_mikmaw home q) as [w|] eqn:F.
  - destruct (translate_mikmaw_found home q w T F) as (d & _ & E).
    rewrite (E input_type H2), (E (py "mikmaw") eq_refl). reflexivity.
  - unfold translate.
    rewrite T, H1, H2, F, !str_eqb_refl, english_not_mikmaw.
    reflexivity.
Qed.

Lemma translate_auto_prefers_mikmaw_witness :
  str_eqb (py "auto") (py "mikmaw") = false
  /\ str_eqb (py "auto") (py "english") = false
  /\ translate example_home (py "Kesik") (py "auto")
     = translate example_home (py "Kesik") (py "mikmaw").
Proof.
  assert (str_eqb (py "auto") (py "mikmaw") = false) as H1
    by (vm_compute; reflexivity).
  assert (str_eqb (py "auto") (py "english") = false) as H2
    by (vm_compute; reflexivity).
  split; [exact H1|]. split; [exact H2|].
  rewrite (translate_auto_prefers_mikmaw ascii_case example_home
             (py "Kesik") (py "auto") H1 H2).
  vm_compute. reflexivity.
Defined.

(** X22. An English search raises [KeyError] exactly when the query is
    not blank and the word it finds has no "general" dialect; the key
    reported is "general". *)
Theorem translate_english_key_error :
  forall (CF : CaseFold) (home : HomeContext) (q key : str),
    translate home q (py "english") = KeyError key
    <-> key = py "general"
        /\ strip q <> []
        /\ exists w, _find_by_english home q = Some w
                     /\ dict_get (dialects w) (py "general") = None.
Proof.
  intros CF home q key. unfold translate.
  rewrite english_not_mikmaw, str_eqb_refl.
  destruct (truthy (strip q)) eqn:T; cbn [negb].
  - apply truthy_iff in T.
    destruct (_find_by_english home q) as [w|].
    + destruct (dict_get (dialects w) (py "general")) as [d|] eqn:D.
      * split; [discriminate|].
        intros (_ & _ & w' & [= <-] & D'). congruence.
      * split; [intros [= <-]; eauto 6|]. intros (-> & _); reflexivity.
    + split; [discriminate|]. intros (_ & _ & w' & C & _). discriminate.
  - split; [discriminate|]. intros (_ & C & _).
    destruct (strip q); [congruence | discriminate].
Qed.

Lemma translate_english_key_error_witness :
  (strip (py "snow") <> []
   /\ exists w, _find_by_english example_home (py "snow") = Some w
                /\ dict_get (dialects w) (py "general") = None)
  /\ translate example_home (py "snow") (py "english")
     = KeyError (py "general").
Proof.
  assert (strip (py "snow") <> []
          /\ exists w, _find_by_english example_home (py "snow") = Some w
                       /\ dict_get (dialects w) (py "general") = None) as H.
  { split; [vm_compute; discriminate|].
    eexists. split; vm_compute; reflexivity. }
  split; [exact H|].
  apply (translate_english_key_error ascii_case example_home (py "snow")
           (py "general")).
  split; [reflexivity | exact H].
Defined.

(** X23. The English search is a substring search: it returns the first
    word of the context whose lowered gloss holds the lowered, trimmed
    query (the test for equality adds nothing).  Called on a blank query
    it returns the first word of the context, whatever its gloss. *)
Theorem find_by_english_substring :
  forall (CF : CaseFold) (home : HomeContext) (gloss : str),
    _find_by_english home gloss
    = find (fun w => contains (lower (strip gloss)) (lower (english w)))
        (map snd (mi_kmaw_words home))
    /\ (blank gloss = true ->
        _find_by_english home gloss
        = hd_error (map snd (mi_kmaw_words home))).
Proof.
  intros CF home gloss.
  assert (_find_by_english home gloss
          = find (fun w => contains (lower (strip gloss))
                             (lower (english w)))
              (map snd (mi_kmaw_words home))) as E.
  { unfold _find_by_english.
    induction (map snd (mi_kmaw_words home)) as [|w l IH];
      [reflexivity|].
    cbn [find]. rewrite IH.
    destruct (str_eqb (lower (english w)) (lower (strip gloss))) eqn:Q;
      [|reflexivity].
    apply str_eqb_eq in Q. rewrite Q, contains_refl. reflexivity. }
  split; [exact E|].
  intros B. rewrite E, (strip_blank gloss B).
  rewrite (proj2 (lower_empty []) eq_refl).
  destruct (map snd (mi_kmaw_words home)) as [|w l]; [reflexivity|].
  cbn [find hd_error].
  assert (contains [] (lower (english w)) = true) as ->
    by (destruct (lower (english w)); reflexivity).
  reflexivity.
Qed.

Lemma find_by_english_substring_witness :
  blank [] = true
  /\ _find_by_english example_home []
     = hd_error (map snd (mi_kmaw_words example_home)).
Proof.
  split; [reflexivity|].
  exact (proj2 (find_by_english_substring ascii_case example_home [])
           eq_refl).
Defined.

End HomeTranslatorFacts.
